(** * The drawing canvas of [src/pages/home.tsx]

    A shallow embedding of the [Home] component: the scene (shapes and
    wave particles), the control-panel actions and the pointer handlers
    with their long-press gesture.

    Conventions of the embedding.
    - A JavaScript [number] is an exact rational ([Q]) in the model of
      the component.  Rounding is not part of that model; the two
      computations whose outcome turns on it, the hit test of
      [findShapeAt] and the drawing of a wave, are modelled once more on
      binary64 numbers in module [Double].
    - React state is one record, [State]; a handler is a function
      [State -> State] that performs its [setX] calls in program order.
      Every handler runs against the state of the latest render.
    - What the browser keeps for the component is part of the same
      record: the table of pending [setTimeout] callbacks, the table of
      running [setInterval] tickers, and a log of the sounds and toasts
      that were emitted.
    - [Math.random()] and [Date.now()] are inputs of the event that
      consumes them. *)

From Stdlib Require Import QArith Qminmax Qround ZArith List String Bool.
From Stdlib Require Import Lia Psatz Reals Qreals.
From Stdlib Require PrimFloat FloatOps SpecFloat.
From stdpp Require Import gmap.
Import ListNotations.

Open Scope Q_scope.

(** ** Data model *)

(** [Shape['type']]. *)
Inductive ShapeKind : Type :=
| circle | star | triangle | heart | square
| hexagon | diamond | flower | butterfly | rainbow.

Scheme Equality for ShapeKind.

Module Palette.

(** The keys of [COLOR_PALETTES]. *)
Inductive name : Type := pastels | rainbow | warm.

Scheme Equality for name.

End Palette.

Definition COLOR_PALETTES (p : Palette.name) : list string :=
  match p with
  | Palette.pastels =>
      ["#FFB3E6"; "#B3E5FF"; "#B3FFB3"; "#FFFFB3";
       "#E6B3FF"; "#FFE6B3"; "#B3FFFF"; "#FFB3B3"]
  | Palette.rainbow =>
      ["#FF1493"; "#00CED1"; "#32CD32"; "#FFD700";
       "#FF69B4"; "#00BFFF"; "#7FFF00"; "#FF6347"]
  | Palette.warm =>
      ["#FF4500"; "#FF8C00"; "#FFD700"; "#FF1493";
       "#DC143C"; "#FF69B4"; "#FF6B6B"; "#FF7F50"]
  end%string.

Module Shape.

Record t : Type := mk {
  id : string;
  x : Q;
  y : Q;
  type : ShapeKind;
  color : string;
  size : Q;
  palette : Palette.name;
  opacity : Q
}.

(** [{ ...shape, opacity: o }] *)
Definition withOpacity (o : Q) (s : t) : t :=
  mk (id s) (x s) (y s) (type s) (color s) (size s) (palette s) o.

(** [{ ...shape, x, y }] *)
Definition withPosition (nx ny : Q) (s : t) : t :=
  mk (id s) nx ny (type s) (color s) (size s) (palette s) (opacity s).

End Shape.

Module Particle.

Record t : Type := mk {
  id : string;
  x : Q;
  y : Q;
  vx : Q;
  vy : Q;
  life : Q;
  maxLife : Q;
  color : string;
  size : Q
}.

End Particle.

Record Point : Type := mkPoint { px : Q; py : Q }.

Module Rect.

(** The part of [canvas.getBoundingClientRect()] the handlers read. *)
Record t : Type := mk { left : Q; top : Q }.

End Rect.

Module Note.

(** The argument of [playNote]. *)
Inductive t : Type := create | delete | action.

End Note.

(** What the user hears and sees besides the canvas. *)
Inductive Effect : Type :=
| Sound (n : Note.t)
| Toast (title : string).

(** The variables captured by the callback that [handlePointerDown]
    hands to [setTimeout]: the shape that was touched, as it was at that
    moment, and the canvas coordinates of the pointer. *)
Record LongPress : Type := mkLongPress {
  touchedShape : Shape.t;
  downX : Q;
  downY : Q
}.

(** The component's state.  [canvasRef], [audioContextRef] and the
    [useState] cells carry the names of the source.  [audioSupported]
    tells whether [new AudioContext()] succeeds in this browser.
    [timeouts] and [intervals] are the browser's tables of pending
    long-press timers and running progress tickers, keyed by the handle
    that [setTimeout] and [setInterval] returned; [nextHandle] is the next
    handle to hand out (handles are positive integers). *)
Record State : Type := mkState {
  canvasRef : option Rect.t;
  audioSupported : bool;
  audioContextRef : bool;
  shapes : list Shape.t;
  particles : list Particle.t;
  currentShape : ShapeKind;
  currentPalette : Palette.name;
  currentSize : Q;
  eraserMode : bool;
  draggedShape : option Shape.t;
  dragOffset : Point;
  longPressTimer : option positive;
  showLongPressIndicator : bool;
  longPressProgress : Q;
  timeouts : gmap positive LongPress;
  intervals : gmap positive Q;
  nextHandle : positive;
  effects : list Effect
}.

Definition withAudioContext (v : bool) (st : State) : State :=
  mkState (canvasRef st) (audioSupported st) v (shapes st) (particles st)
    (currentShape st) (currentPalette st) (currentSize st) (eraserMode st)
    (draggedShape st) (dragOffset st) (longPressTimer st)
    (showLongPressIndicator st) (longPressProgress st) (timeouts st)
    (intervals st) (nextHandle st) (effects st).

Definition setShapes (v : list Shape.t) (st : State) : State :=
  mkState (canvasRef st) (audioSupported st) (audioContextRef st) v
    (particles st) (currentShape st) (currentPalette st) (currentSize st)
    (eraserMode st) (draggedShape st) (dragOffset st) (longPressTimer st)
    (showLongPressIndicator st) (longPressProgress st) (timeouts st)
    (intervals st) (nextHandle st) (effects st).

Definition setParticles (v : list Particle.t) (st : State) : State :=
  mkState (canvasRef st) (audioSupported st) (audioContextRef st)
    (shapes st) v (currentShape st) (currentPalette st) (currentSize st)
    (eraserMode st) (draggedShape st) (dragOffset st) (longPressTimer st)
    (showLongPressIndicator st) (longPressProgress st) (timeouts st)
    (intervals st) (nextHandle st) (effects st).

Definition setCurrentShape (v : ShapeKind) (st : State) : State :=
  mkState (canvasRef st) (audioSupported st) (audioContextRef st)
    (shapes st) (particles st) v (currentPalette st) (currentSize st)
    (eraserMode st) (draggedShape st) (dragOffset st) (longPressTimer st)
    (showLongPressIndicator st) (longPressProgress st) (timeouts st)
    (intervals st) (nextHandle st) (effects st).

Definition setCurrentPalette (v : Palette.name) (st : State) : State :=
  mkState (canvasRef st) (audioSupported st) (audioContextRef st)
    (shapes st) (particles st) (currentShape st) v (currentSize st)
    (eraserMode st) (draggedShape st) (dragOffset st) (longPressTimer st)
    (showLongPressIndicator st) (longPressProgress st) (timeouts st)
    (intervals st) (nextHandle st) (effects st).

Definition setCurrentSize (v : Q) (st : State) : State :=
  mkState (canvasRef st) (audioSupported st) (audioContextRef st)
    (shapes st) (particles st) (currentShape st) (currentPalette st) v
    (eraserMode st) (draggedShape st) (dragOffset st) (longPressTimer st)
    (showLongPressIndicator st) (longPressProgress st) (timeouts st)
    (intervals st) (nextHandle st) (effects st).

Definition setEraserMode (v : bool) (st : State) : State :=
  mkState (canvasRef st) (audioSupported st) (audioContextRef st)
    (shapes st) (particles st) (currentShape st) (currentPalette st)
    (currentSize st) v (draggedShape st) (dragOffset st) (longPressTimer st)
    (showLongPressIndicator st) (longPressProgress st) (timeouts st)
    (intervals st) (nextHandle st) (effects st).

Definition setDraggedShape (v : option Shape.t) (st : State) : State :=
  mkState (canvasRef st) (audioSupported st) (audioContextRef st)
    (shapes st) (particles st) (currentShape st) (currentPalette st)
    (currentSize st) (eraserMode st) v (dragOffset st) (longPressTimer st)
    (showLongPressIndicator st) (longPressProgress st) (timeouts st)
    (intervals st) (nextHandle st) (effects st).

Definition setDragOffset (v : Point) (st : State) : State :=
  mkState (canvasRef st) (audioSupported st) (audioContextRef st)
    (shapes st) (particles st) (currentShape st) (currentPalette st)
    (currentSize st) (eraserMode st) (draggedShape st) v (longPressTimer st)
    (showLongPressIndicator st) (longPressProgress st) (timeouts st)
    (intervals st) (nextHandle st) (effects st).

Definition setLongPressTimer (v : option positive) (st : State) : State :=
  mkState (canvasRef st) (audioSupported st) (audioContextRef st)
    (shapes st) (particles st) (currentShape st) (currentPalette st)
    (currentSize st) (eraserMode st) (draggedShape st) (dragOffset st) v
    (showLongPressIndicator st) (longPressProgress st) (timeouts st)
    (intervals st) (nextHandle st) (effects st).

Definition setShowLongPressIndicator (v : bool) (st : State) : State :=
  mkState (canvasRef st) (audioSupported st) (audioContextRef st)
    (shapes st) (particles st) (currentShape st) (currentPalette st)
    (currentSize st) (eraserMode st) (draggedShape st) (dragOffset st)
    (longPressTimer st) v (longPressProgress st) (timeouts st)
    (intervals st) (nextHandle st) (effects st).

Definition setLongPressProgress (v : Q) (st : State) : State :=
  mkState (canvasRef st) (audioSupported st) (audioContextRef st)
    (shapes st) (particles st) (currentShape st) (currentPalette st)
    (currentSize st) (eraserMode st) (draggedShape st) (dragOffset st)
    (longPressTimer st) (showLongPressIndicator st) v (timeouts st)
    (intervals st) (nextHandle st) (effects st).

Definition withTimeouts (v : gmap positive LongPress) (st : State) : State :=
  mkState (canvasRef st) (audioSupported st) (audioContextRef st)
    (shapes st) (particles st) (currentShape st) (currentPalette st)
    (currentSize st) (eraserMode st) (draggedShape st) (dragOffset st)
    (longPressTimer st) (showLongPressIndicator st) (longPressProgress st) v
    (intervals st) (nextHandle st) (effects st).

Definition withIntervals (v : gmap positive Q) (st : State) : State :=
  mkState (canvasRef st) (audioSupported st) (audioContextRef st)
    (shapes st) (particles st) (currentShape st) (currentPalette st)
    (currentSize st) (eraserMode st) (draggedShape st) (dragOffset st)
    (longPressTimer st) (showLongPressIndicator st) (longPressProgress st)
    (timeouts st) v (nextHandle st) (effects st).

Definition withNextHandle (v : positive) (st : State) : State :=
  mkState (canvasRef st) (audioSupported st) (audioContextRef st)
    (shapes st) (particles st) (currentShape st) (currentPalette st)
    (currentSize st) (eraserMode st) (draggedShape st) (dragOffset st)
    (longPressTimer st) (showLongPressIndicator st) (longPressProgress st)
    (timeouts st) (intervals st) v (effects st).

Definition withEffects (v : list Effect) (st : State) : State :=
  mkState (canvasRef st) (audioSupported st) (audioContextRef st)
    (shapes st) (particles st) (currentShape st) (currentPalette st)
    (currentSize st) (eraserMode st) (draggedShape st) (dragOffset st)
    (longPressTimer st) (showLongPressIndicator st) (longPressProgress st)
    (timeouts st) (intervals st) (nextHandle st) v.

(** ** JavaScript primitives *)

(** [a > b] on numbers. *)
Definition gtb (a b : Q) : bool := negb (Qle_bool a b).

(** [Math.sqrt(a) <= b], decided without the square root: for [a >= 0]
    it holds exactly when [b] is not negative and [a <= b * b]
    (lemma [sqrt_le_correct]). *)
Definition sqrt_le (a b : Q) : bool := Qle_bool 0 b && Qle_bool a (b * b).

(** [a[i]] for a number [i]; [None] is [undefined]. *)
Definition at_index {A : Type} (a : list A) (i : Z) : option A :=
  if (i <? 0)%Z then None else a !! Z.to_nat i.

(** [a.indexOf(v)], searching from position [i]; [-1] when absent. *)
Fixpoint indexOf_from {A : Type} (eqb : A -> A -> bool)
    (a : list A) (v : A) (i : Z) : Z :=
  match a with
  | [] => (-1)%Z
  | w :: a' => if eqb w v then i else indexOf_from eqb a' v (i + 1)%Z
  end.

Definition indexOf {A : Type} (eqb : A -> A -> bool) (a : list A) (v : A) : Z :=
  indexOf_from eqb a v 0%Z.

(** [Math.random()] returns a number in [[0, 1)]. *)
Definition is_random (r : Q) : Prop := 0 <= r /\ r < 1.

(** What one tap on empty space draws from the environment, in the order
    of [createShape]: the [Math.random()] of [getRandomColor], the string
    [Date.now() + Math.random().toString()], the [Math.random()] of the
    size, and the string [`wave-${Date.now()}`] of [createSpreadingWave]. *)
Record Entropy : Type := mkEntropy {
  randomColor : Q;
  shapeId : string;
  randomSize : Q;
  waveId : string
}.

(** ** Sound and toasts *)

Definition emit (e : Effect) (st : State) : State :=
  withEffects (effects st ++ [e]) st.

(** [initAudioContext]: creates the context once; a browser without
    audio leaves the reference empty (the exception is caught). *)
Definition initAudioContext (st : State) : State :=
  if audioContextRef st then st
  else if audioSupported st then withAudioContext true st
  else st.

(** [playNote]: silent without an audio context.  The synthesis itself
    (frequency, envelope) does not touch the state and is not modelled. *)
Definition playNote (noteType : Note.t) (st : State) : State :=
  if audioContextRef st then emit (Sound noteType) st else st.

Definition toast (title : string) (st : State) : State :=
  emit (Toast title) st.

(** ** Timers of the browser *)

(** [setTimeout(callback, 1500)]: registers the callback, returns its
    handle. *)
Definition setTimeout (cb : LongPress) (st : State) : positive * State :=
  let h := nextHandle st in
  (h, withNextHandle (Pos.succ h) (withTimeouts (<[h := cb]> (timeouts st)) st)).

Definition clearTimeout (h : positive) (st : State) : State :=
  withTimeouts (base.delete h (timeouts st)) st.

(** [setInterval(callback, 16)] of the progress ring; the callback
    captures [startTime]. *)
Definition setInterval (startTime : Q) (st : State) : positive * State :=
  let h := nextHandle st in
  (h, withNextHandle (Pos.succ h)
        (withIntervals (<[h := startTime]> (intervals st)) st)).

Definition clearInterval (h : positive) (st : State) : State :=
  withIntervals (base.delete h (intervals st)) st.

(** ** Scene operations *)

(** [getRandomColor], given the value of [Math.random()]. *)
Definition getRandomColor (r : Q) (st : State) : string :=
  let colors := COLOR_PALETTES (currentPalette st) in
  match at_index colors (Qfloor (r * inject_Z (Z.of_nat (length colors)))) with
  | Some c => c
  | None => "undefined"%string
  end.

Definition createSpreadingWave (wid : string) (x y : Q) (color : string)
    (st : State) : State :=
  let newParticles :=
    [Particle.mk wid x y 0 0 60 60 color (currentSize st)] in
  setParticles (particles st ++ newParticles) st.

(** The test of [findShapeAt]'s loop body:
    [Math.sqrt((x - shape.x) ** 2 + (y - shape.y) ** 2) <= shape.size / 2]. *)
Definition distance2 (x y : Q) (shape : Shape.t) : Q :=
  (x - Shape.x shape) ^ 2 + (y - Shape.y shape) ^ 2.

Definition hits (x y : Q) (shape : Shape.t) : bool :=
  sqrt_le (distance2 x y shape) (Shape.size shape / 2).

(** [for (let i = shapes.length - 1; i >= 0; i--)]: [n] is [i + 1], the
    number of indices still to visit.  The index stays below
    [shapes.length], so [shapes[i]] is never [undefined]. *)
Fixpoint findShapeAt_loop (shapes : list Shape.t) (x y : Q) (n : nat)
    : option Shape.t :=
  match n with
  | O => None
  | S i =>
      match shapes !! i with
      | Some shape =>
          if hits x y shape then Some shape else findShapeAt_loop shapes x y i
      | None => None
      end
  end.

Definition findShapeAt (shapes : list Shape.t) (x y : Q) : option Shape.t :=
  findShapeAt_loop shapes x y (length shapes).

(** The object literal [newShape] of [createShape]. *)
Definition newShape (e : Entropy) (x y : Q) (st : State) : Shape.t :=
  Shape.mk (shapeId e) x y (currentShape st)
    (getRandomColor (randomColor e) st)
    (currentSize st + randomSize e * 20 - 10) (currentPalette st) (9 # 10).

Definition createShape (e : Entropy) (x y : Q) (st : State) : State :=
  if eraserMode st then st
  else
    let shape := newShape e x y st in
    let st1 := setShapes (shapes st ++ [shape]) st in
    let st2 := createSpreadingWave (waveId e) x y (Shape.color shape) st1 in
    let st3 := playNote Note.create st2 in
    initAudioContext st3.

Definition deleteShape (shapeToDelete : Shape.t) (st : State) : State :=
  let st1 :=
    setShapes
      (List.filter
         (fun shape => negb (Shape.id shape =? Shape.id shapeToDelete)%string)
         (shapes st)) st in
  playNote Note.delete st1.

Definition increaseSize (st : State) : State :=
  playNote Note.action (setCurrentSize (Qmin (currentSize st + 20) 200) st).

Definition decreaseSize (st : State) : State :=
  playNote Note.action (setCurrentSize (Qmax (currentSize st - 20) 20) st).

(** ** Pointer handlers *)

(** The callback of the 1.5 s timer of [handlePointerDown], run by the
    browser when timer [h] elapses.  A timer that was cleared, or that
    already ran, is not in the table and nothing happens. *)
Definition longPressElapsed (h : positive) (st : State) : State :=
  match timeouts st !! h with
  | None => st
  | Some cb =>
      let touched := touchedShape cb in
      let st0 := withTimeouts (base.delete h (timeouts st)) st in
      let st1 := setDraggedShape (Some touched) st0 in
      let st2 :=
        setDragOffset
          (mkPoint (downX cb - Shape.x touched) (downY cb - Shape.y touched))
          st1 in
      let st3 := setShowLongPressIndicator false st2 in
      let st4 :=
        setShapes
          (map (fun shape =>
                  if (Shape.id shape =? Shape.id touched)%string
                  then Shape.withOpacity (7 # 10) shape
                  else shape)
               (shapes st3)) st3 in
      let st5 := playNote Note.action st4 in
      toast "Drag Mode" st5
  end.

(** The callback of the 16 ms ticker of [handlePointerDown]; [now] is
    [Date.now()]. *)
Definition progressTick (h : positive) (now : Q) (st : State) : State :=
  match intervals st !! h with
  | None => st
  | Some startTime =>
      let elapsed := now - startTime in
      let progress := Qmin (elapsed / 1500) 1 in
      let st1 := setLongPressProgress progress st in
      if Qle_bool 1 progress then clearInterval h st1 else st1
  end.

Definition handlePointerDown (clientX clientY : Q) (e : Entropy) (now : Q)
    (st : State) : State :=
  let st := initAudioContext st in
  match canvasRef st with
  | None => st
  | Some rect =>
      let x := clientX - Rect.left rect in
      let y := clientY - Rect.top rect in
      match findShapeAt (shapes st) x y with
      | Some touched =>
          if eraserMode st then deleteShape touched st
          else
            let st1 := setShowLongPressIndicator true st in
            let st2 := setLongPressProgress 0 st1 in
            let (timer, st3) := setTimeout (mkLongPress touched x y) st2 in
            let st4 := setLongPressTimer (Some timer) st3 in
            snd (setInterval now st4)
      | None => createShape e x y st
      end
  end.

Definition handlePointerMove (clientX clientY : Q) (st : State) : State :=
  match draggedShape st with
  | None => st
  | Some dragged =>
      match canvasRef st with
      | None => st
      | Some rect =>
          let x := clientX - Rect.left rect - px (dragOffset st) in
          let y := clientY - Rect.top rect - py (dragOffset st) in
          setShapes
            (map (fun shape =>
                    if (Shape.id shape =? Shape.id dragged)%string
                    then Shape.withPosition x y shape
                    else shape)
                 (shapes st)) st
      end
  end.

Definition handlePointerUp (st : State) : State :=
  let st1 :=
    match longPressTimer st with
    | Some h => setLongPressTimer None (clearTimeout h st)
    | None => st
    end in
  let st2 :=
    match draggedShape st with
    | Some dragged =>
        playNote Note.action
          (setShapes
             (map (fun shape =>
                     if (Shape.id shape =? Shape.id dragged)%string
                     then Shape.withOpacity 1 shape
                     else shape)
                  (shapes st1)) st1)
    | None => st1
    end in
  let st3 := setShowLongPressIndicator false st2 in
  let st4 := setLongPressProgress 0 st3 in
  let st5 := setDraggedShape None st4 in
  setDragOffset (mkPoint 0 0) st5.

(** ** Control panel *)

(** The array that [cycleShape] walks through. *)
Definition shapeOrder : list ShapeKind :=
  [circle; star; triangle; heart; square;
   hexagon; diamond; flower; butterfly; rainbow].

(** [shapes[(currentIndex + 1) % shapes.length]]; the index is always in
    range (lemma [cycleShape_in_range]), so the [undefined] branch never
    runs. *)
Definition cycleShape (st : State) : State :=
  let currentIndex := indexOf ShapeKind_beq shapeOrder (currentShape st) in
  let next :=
    at_index shapeOrder
      (Z.rem (currentIndex + 1) (Z.of_nat (length shapeOrder))) in
  let st1 :=
    match next with
    | Some k => setCurrentShape k st
    | None => st
    end in
  playNote Note.action st1.

Definition paletteOrder : list Palette.name :=
  [Palette.pastels; Palette.rainbow; Palette.warm].

Definition cyclePalette (st : State) : State :=
  let currentIndex :=
    indexOf Palette.name_beq paletteOrder (currentPalette st) in
  let next :=
    at_index paletteOrder
      (Z.rem (currentIndex + 1) (Z.of_nat (length paletteOrder))) in
  let st1 :=
    match next with
    | Some p => setCurrentPalette p st
    | None => st
    end in
  playNote Note.action st1.

Definition toggleEraser (st : State) : State :=
  playNote Note.action (setEraserMode (negb (eraserMode st)) st).

Definition clearCanvas (st : State) : State :=
  if (0 <? length (shapes st))%nat then
    let st1 := setShapes [] st in
    let st2 := setParticles [] st1 in
    let st3 := playNote Note.action st2 in
    toast "Canvas Cleared" st3
  else st.

(** ** Particle ageing *)

(** The [map] of the 16 ms particle interval. *)
Definition ageParticle (particle : Particle.t) : Particle.t :=
  Particle.mk (Particle.id particle) (Particle.x particle)
    (Particle.y particle) 0 0 (Particle.life particle - 1)
    (Particle.maxLife particle) (Particle.color particle)
    (Particle.size particle).

Definition ageParticles (ps : list Particle.t) : list Particle.t :=
  List.filter (fun particle => gtb (Particle.life particle) 0)
    (map ageParticle ps).

Definition updateParticles (st : State) : State :=
  setParticles (ageParticles (particles st)) st.

(** ** The event loop *)

(** Everything that can happen to the mounted component: the three
    pointer events of the canvas, the two kinds of timer callbacks of the
    long-press gesture, the particle interval, and the buttons. *)
Inductive Event : Type :=
| PointerDown (clientX clientY : Q) (e : Entropy) (now : Q)
| PointerMove (clientX clientY : Q)
| PointerUp
| LongPressElapsed (h : positive)
| ProgressTick (h : positive) (now : Q)
| ParticleTick
| CycleShape
| CyclePalette
| IncreaseSize
| DecreaseSize
| ToggleEraser
| ClearCanvas.

Definition step (st : State) (ev : Event) : State :=
  match ev with
  | PointerDown cx cy e now => handlePointerDown cx cy e now st
  | PointerMove cx cy => handlePointerMove cx cy st
  | PointerUp => handlePointerUp st
  | LongPressElapsed h => longPressElapsed h st
  | ProgressTick h now => progressTick h now st
  | ParticleTick => updateParticles st
  | CycleShape => cycleShape st
  | CyclePalette => cyclePalette st
  | IncreaseSize => increaseSize st
  | DecreaseSize => decreaseSize st
  | ToggleEraser => toggleEraser st
  | ClearCanvas => clearCanvas st
  end.

Definition run (st : State) (evs : list Event) : State :=
  fold_left step evs st.

(** The state after the first render: the initial values of the
    [useState] and [useRef] cells, the canvas mounted at [rect], no timer
    registered. *)
Definition initialState (rect : Rect.t) (audio : bool) : State :=
  mkState (Some rect) audio false [] [] circle Palette.pastels 80 false
    None (mkPoint 0 0) None false 0 ∅ ∅ 1%positive [].

(** ** Vocabulary of the properties *)

(** The point [(x, y)] lies within Euclidean distance [size / 2] of the
    centre of [shape]. *)
Definition within_radius (x y : Q) (shape : Shape.t) : Prop :=
  (sqrt (Q2R ((x - Shape.x shape) ^ 2 + (y - Shape.y shape) ^ 2))
   <= Q2R (Shape.size shape / 2))%R.

(** Events that may come between a pointer-down and its pointer-up
    while the long-press timer has not elapsed: pointer moves, ticks of
    the progress ring, ticks of the particle interval. *)
Definition quiet (ev : Event) : bool :=
  match ev with
  | PointerMove _ _ | ProgressTick _ _ | ParticleTick => true
  | _ => false
  end.

(** Every pending long-press timer is the one whose handle the
    component remembers in [longPressTimer]. *)
Definition only_stored_timer (st : State) : Prop :=
  forall h, is_Some (timeouts st !! h) -> longPressTimer st = Some h.

(** ** Sample scenes *)

Definition sample_entropy : Entropy :=
  mkEntropy (1 # 2) "1700000000000.25" (1 # 4) "wave-1700000000000".

Definition other_entropy : Entropy :=
  mkEntropy (3 # 4) "1700000005000.75" (1 # 2) "wave-1700000005000".

Definition empty_canvas : State := initialState (Rect.mk 0 0) true.

(** The eraser switched on, nothing drawn yet. *)
Definition erasing_empty_canvas : State := toggleEraser empty_canvas.

(** One tap at (100, 100): a single shape, opacity 0.9. *)
Definition one_shape_canvas : State :=
  run empty_canvas [PointerDown 100 100 sample_entropy 0; PointerUp].

(** A second tap at (300, 300), then the eraser switched on. *)
Definition erasing_two_shapes : State :=
  run one_shape_canvas
    [PointerDown 300 300 other_entropy 5000; PointerUp; ToggleEraser].

(** The shape at (100, 100) pressed until its long-press timer (handle
    1) elapsed: it is being dragged. *)
Definition dragging_canvas : State :=
  run one_shape_canvas [PointerDown 100 100 sample_entropy 10000;
                        LongPressElapsed 1].

(** The shape at (100, 100) pressed and held, its timer still pending. *)
Definition pressing_canvas : State :=
  run one_shape_canvas [PointerDown 100 100 sample_entropy 10000].

(** Two presses on the shape and one release: nothing is dragged, and
    the timer of the first press (handle 1) is still pending. *)
Definition stale_timer_canvas : State :=
  run one_shape_canvas
    [PointerDown 100 100 sample_entropy 10000;
     PointerDown 100 100 sample_entropy 10200;
     PointerUp].

(** ** Gestures of a single pointer *)

(** In the event stream of one pointer that the canvas always sees
    released, presses and releases alternate.  [pointer_after down evs]
    follows the pointer through [evs], starting down or up, and is [None]
    when two presses or two releases come in a row. *)
Fixpoint pointer_after (down : bool) (evs : list Event) : option bool :=
  match evs with
  | [] => Some down
  | PointerDown _ _ _ _ :: evs' =>
      if down then None else pointer_after true evs'
  | PointerUp :: evs' =>
      if down then pointer_after false evs' else None
  | _ :: evs' => pointer_after down evs'
  end.

(** While the pointer is down the only pending timer is the remembered
    one; while it is up no timer is pending. *)
Definition timers_tracked (down : bool) (st : State) : Prop :=
  if down then only_stored_timer st else timeouts st = ∅.

(** ** The rest of the component *)

(** What drags never touch: everything of a shape but its position and
    opacity. *)
Definition shapeCore (s : Shape.t)
    : string * ShapeKind * string * Q * Palette.name :=
  (Shape.id s, Shape.type s, Shape.color s, Shape.size s, Shape.palette s).

(** [MUSICAL_NOTES]. *)
Definition MUSICAL_NOTES_pentatonic : list Q :=
  [26163 # 100; 29366 # 100; 32963 # 100; 392; 440;
   52325 # 100; 58733 # 100; 65925 # 100].

Definition MUSICAL_NOTES_gentle : list Q :=
  [220; 24694 # 100; 26163 # 100; 29366 # 100;
   32963 # 100; 34923 # 100; 392; 440].

(** The table that [playNote] draws from for a note type. *)
Definition notesFor (noteType : Note.t) : list Q :=
  match noteType with
  | Note.create => MUSICAL_NOTES_pentatonic
  | Note.delete => MUSICAL_NOTES_gentle
  | Note.action => MUSICAL_NOTES_pentatonic ++ MUSICAL_NOTES_gentle
  end.

(** The [frequency] of [playNote], given the value of [Math.random()];
    [None] is [undefined]. *)
Definition noteFrequency (noteType : Note.t) (r : Q) : option Q :=
  let notes := notesFor noteType in
  at_index notes (Qfloor (r * inject_Z (Z.of_nat (length notes)))).




(** [saveArtwork].  [answer] is what [prompt] returned ([None] when the
    dialog was cancelled) and [exportOk] tells whether the [try] block
    (creating the link, [canvas.toDataURL()], the click) ran to its end.
    The result is the new state together with the name of the file that
    was downloaded, if any. *)
Definition saveArtwork (answer : option string) (exportOk : bool) (st : State)
    : State * option string :=
  match canvasRef st with
  | None => (st, None)
  | Some _ =>
      let filename :=
        match answer with
        | Some s => if (s =? "")%string then "my-artwork"%string else s
        | None => "my-artwork"%string
        end in
      if exportOk
      then (toast "Artwork Saved!" st, Some (filename ++ ".png")%string)
      else (toast "Save Failed" st, None)
  end.

(** Events of the canvas's [onPointerDown]. *)
Definition is_pointer_down (ev : Event) : bool :=
  match ev with
  | PointerDown _ _ _ _ => true
  | _ => false
  end.

(** ** Double precision

    The numbers of the browser are binary64 values.  Where a property
    turns on a rounded result (a hit exactly at the rim of a shape, the
    digits of a gradient stop), the computation is modelled here on
    Rocq's primitive floats, which are binary64 with round-to-nearest-even
    for [+], [-], [*], [/] and [sqrt], as in JavaScript.  [a ** 2] is
    taken as the rounded product [a * a]. *)

Module Double.

Import PrimFloat FloatOps SpecFloat.
Local Open Scope float_scope.
Set Warnings "-inexact-float".

Module Shape.

Record t : Type := mk {
  id : string;
  x : float;
  y : float;
  type : ShapeKind;
  color : string;
  size : float;
  palette : Palette.name;
  opacity : float
}.

End Shape.

Module Particle.

Record t : Type := mk {
  id : string;
  x : float;
  y : float;
  vx : float;
  vy : float;
  life : float;
  maxLife : float;
  color : string;
  size : float
}.

End Particle.

(** The exact value of a finite binary64 number. *)
Definition toQ (f : float) : option Q :=
  match Prim2SF f with
  | S754_zero _ => Some 0%Q
  | S754_finite s m e =>
      Some ((if s then -1 else 1) * inject_Z (Z.pos m) * 2 ^ e)%Q
  | S754_infinity _ | S754_nan => None
  end.

(** The finite number [f] has the exact value [q]. *)
Definition exactly (f : float) (q : Q) : Prop :=
  match toQ f with
  | Some q' => (q' == q)%Q
  | None => False
  end.

(** [Math.floor] of a finite number, as an integer. *)
Definition floor (f : float) : option Z :=
  match toQ f with
  | Some q => Some (Qfloor q)
  | None => None
  end.

(** The [distance] of [findShapeAt]'s loop body and its test
    [distance <= shape.size / 2]. *)
Definition distance (px py : float) (shape : Shape.t) : float :=
  sqrt ((px - Shape.x shape) * (px - Shape.x shape)
        + (py - Shape.y shape) * (py - Shape.y shape)).

Definition hits (px py : float) (shape : Shape.t) : bool :=
  distance px py shape <=? Shape.size shape / 2.

(** [for (let i = shapes.length - 1; i >= 0; i--)], as in the exact
    model: [n] is [i + 1]. *)
Fixpoint findShapeAt_loop (shapes : list Shape.t) (px py : float) (n : nat)
    : option Shape.t :=
  match n with
  | O => None
  | S i =>
      match shapes !! i with
      | Some shape =>
          if hits px py shape then Some shape
          else findShapeAt_loop shapes px py i
      | None => None
      end
  end.

Definition findShapeAt (shapes : list Shape.t) (px py : float)
    : option Shape.t :=
  findShapeAt_loop shapes px py (length shapes).

(** A circle of size 80 at (100, 100), and a point to the right of it
    whose exact distance from the centre is a little more than 40. *)
Definition rim_shape : Shape.t :=
  Shape.mk "1700000000000.25" 100 100 circle "#E6B3FF" 80 Palette.pastels 0.9.

Definition rim_x : float := 140.

Definition rim_y : float := 100 + 0x1p-24.

(** The particle that [createSpreadingWave] pushes, for a current size. *)
Definition wave (wid : string) (x y : float) (color : string)
    (currentSize : float) : Particle.t :=
  Particle.mk wid x y 0 0 60 60 color currentSize.

(** The [map] of the particle interval. *)
Definition ageParticle (particle : Particle.t) : Particle.t :=
  Particle.mk (Particle.id particle) (Particle.x particle)
    (Particle.y particle) 0 0 (Particle.life particle - 1)
    (Particle.maxLife particle) (Particle.color particle)
    (Particle.size particle).

(** The wave of the animation frame: [alpha], [waveRadius], [waveAlpha]
    and the number [Math.floor(waveAlpha * k)] that becomes the two
    hexadecimal digits of a gradient stop ([k] is 255, 128 or 64). *)
Definition particleAlpha (particle : Particle.t) : float :=
  Particle.life particle / Particle.maxLife particle.

Definition waveRadius (particle : Particle.t) : float :=
  let progress := 1 - particleAlpha particle in
  Particle.size particle + (progress * 150).

Definition waveAlpha (particle : Particle.t) : float :=
  particleAlpha particle * 0.6.

Definition stopAlpha (k : float) (particle : Particle.t) : option Z :=
  floor (waveAlpha particle * k).

(** The values [currentSize] can take (20 to 200 in steps of 20). *)
Definition currentSizes : list float :=
  [20; 40; 60; 80; 100; 120; 140; 160; 180; 200].

(** What the animation frame shows of a wave of the given size after [k]
    ageing ticks, as one test. *)
Definition wave_after (size : float) (k : nat) : Particle.t :=
  Nat.iter k ageParticle (wave "wave" 0 0 "#FFB3E6" size).

Definition wave_drawn_well (size : float) (k : nat) : bool :=
  let p := wave_after size k in
  (size <=? waveRadius p) && (waveRadius p <? size + 150)
  && (0 <? waveAlpha p) && (waveAlpha p <=? 0.6)
  && match stopAlpha 255 p with
     | Some b => (0 <=? b)%Z && (b <=? 153)%Z
     | None => false
     end
  && (waveRadius p <? waveRadius (ageParticle p))
  && (waveAlpha (ageParticle p) <? waveAlpha p).

End Double.

(** * Properties *)

(** ** Numbers *)

Lemma gtb_lt (a b : Q) : gtb a b = true <-> b < a.
Proof.
  unfold gtb. rewrite negb_true_iff, <- not_true_iff_false, Qle_bool_iff.
  split; [apply Qnot_le_lt | apply Qlt_not_le].
Qed.

Lemma gtb_le (a b : Q) : gtb a b = false <-> a <= b.
Proof.
  unfold gtb. rewrite negb_false_iff. apply Qle_bool_iff.
Qed.

(** [sqrt_le] decides the comparison with the real square root. *)
Lemma sqrt_le_correct (a b : Q) :
  0 <= a -> sqrt_le a b = true <-> (sqrt (Q2R a) <= Q2R b)%R.
Proof.
  intros Ha. unfold sqrt_le.
  rewrite andb_true_iff, !Qle_bool_iff.
  assert (HaR : (0 <= Q2R a)%R).
  { replace 0%R with (Q2R 0) by (unfold Q2R; simpl; lra). now apply Qle_Rle. }
  split.
  - intros [Hb Hab].
    assert (HbR : (0 <= Q2R b)%R).
    { replace 0%R with (Q2R 0) by (unfold Q2R; simpl; lra). now apply Qle_Rle. }
    rewrite <- (sqrt_square (Q2R b)) by assumption.
    apply sqrt_le_1_alt. rewrite <- Q2R_mult. now apply Qle_Rle.
  - intros Hs.
    pose proof (sqrt_pos (Q2R a)) as Hpos.
    assert (HbR : (0 <= Q2R b)%R) by lra.
    split.
    + apply Rle_Qle. replace (Q2R 0) with 0%R by (unfold Q2R; simpl; lra).
      assumption.
    + apply Rle_Qle. rewrite Q2R_mult.
      rewrite <- (sqrt_sqrt (Q2R a)) by assumption.
      apply Rmult_le_compat; assumption.
Qed.

Lemma Qsquare_nonneg (a : Q) : 0 <= a ^ 2.
Proof.
  change (0 <= a * a).
  unfold Qle, Qmult. simpl. rewrite Z.mul_1_r. apply Z.square_nonneg.
Qed.

Lemma distance2_nonneg (x y : Q) (shape : Shape.t) : 0 <= distance2 x y shape.
Proof.
  unfold distance2.
  pose proof (Qsquare_nonneg (x - Shape.x shape)).
  pose proof (Qsquare_nonneg (y - Shape.y shape)).
  lra.
Qed.

(** ** [findShapeAt] *)

Lemma hits_within_radius (x y : Q) (shape : Shape.t) :
  hits x y shape = true <-> within_radius x y shape.
Proof.
  unfold hits, within_radius.
  apply (sqrt_le_correct (distance2 x y shape)), distance2_nonneg.
Qed.

Lemma hits_false_not_within (x y : Q) (shape : Shape.t) :
  hits x y shape = false <-> ~ within_radius x y shape.
Proof.
  rewrite <- hits_within_radius. now destruct (hits x y shape).
Qed.

(** The loop visits the first [length front] entries of the array from
    the last one down; it behaves as a search through them in reverse. *)
Lemma findShapeAt_loop_find (x y : Q) (front back : list Shape.t) :
  findShapeAt_loop (front ++ back) x y (length front)
  = List.find (hits x y) (rev front).
Proof.
  revert back. induction front as [|s front IH] using rev_ind; intros back.
  - reflexivity.
  - rewrite length_app, Nat.add_1_r, rev_app_distr. simpl.
    rewrite <- app_assoc. simpl.
    rewrite list_lookup_middle by reflexivity.
    destruct (hits x y s); [reflexivity|].
    apply IH.
Qed.

Lemma findShapeAt_find (shapes : list Shape.t) (x y : Q) :
  findShapeAt shapes x y = List.find (hits x y) (rev shapes).
Proof.
  unfold findShapeAt.
  rewrite <- (app_nil_r shapes) at 1.
  apply findShapeAt_loop_find.
Qed.

Lemma find_rev_split {A : Type} (f : A -> bool) (l : list A) :
  match List.find f (rev l) with
  | Some a =>
      exists below above,
        l = below ++ a :: above /\ f a = true /\
        List.Forall (fun b => f b = false) above
  | None => List.Forall (fun b => f b = false) l
  end.
Proof.
  induction l as [|b l IH] using rev_ind.
  - simpl. constructor.
  - rewrite rev_app_distr. simpl.
    destruct (f b) eqn:Hb.
    + exists l, []. repeat split; [assumption | constructor].
    + destruct (List.find f (rev l)) as [a|].
      * destruct IH as (below & above & -> & Ha & Habove).
        exists below, (above ++ [b]). rewrite <- app_assoc. simpl.
        repeat split; [assumption|].
        apply List.Forall_app. split; [assumption|].
        constructor; [assumption | constructor].
      * apply List.Forall_app. split; [assumption|].
        constructor; [assumption | constructor].
Qed.

Lemma findShapeAt_Some_split (shapes : list Shape.t) (x y : Q) (s : Shape.t) :
  findShapeAt shapes x y = Some s ->
  exists below above,
    shapes = below ++ s :: above /\ hits x y s = true /\
    List.Forall (fun t => hits x y t = false) above.
Proof.
  rewrite findShapeAt_find. intros H.
  pose proof (find_rev_split (hits x y) shapes) as Hs.
  rewrite H in Hs. exact Hs.
Qed.

(** In exact arithmetic the shape that [findShapeAt] returns is the last
    one of the list whose centre is within Euclidean distance [size / 2]
    of the point, and the result is [None] exactly when there is none. *)
Lemma findShapeAt_exact_topmost_within_radius (shapes : list Shape.t) (x y : Q) :
  findShapeAt shapes x y = List.find (hits x y) (rev shapes) /\
  (forall s, hits x y s = true <-> within_radius x y s) /\
  match findShapeAt shapes x y with
  | Some s =>
      exists below above,
        shapes = below ++ s :: above /\ within_radius x y s /\
        List.Forall (fun t => ~ within_radius x y t) above
  | None => List.Forall (fun t => ~ within_radius x y t) shapes
  end.
Proof.
  split; [apply findShapeAt_find|].
  split; [intros s; apply hits_within_radius|].
  rewrite findShapeAt_find.
  pose proof (find_rev_split (hits x y) shapes) as Hs.
  destruct (List.find (hits x y) (rev shapes)) as [s|].
  - destruct Hs as (below & above & Heq & Hs & Habove).
    exists below, above. split; [assumption|].
    split; [now apply hits_within_radius|].
    eapply List.Forall_impl; [|exact Habove].
    intros t Ht. now apply hits_false_not_within.
  - eapply List.Forall_impl; [|exact Hs].
    intros t Ht. now apply hits_false_not_within.
Qed.

(** ** Sound, toasts and the audio context leave the scene alone *)

Lemma initAudioContext_cases (st : State) :
  exists b, initAudioContext st = withAudioContext b st.
Proof.
  unfold initAudioContext.
  destruct (audioContextRef st) eqn:Ha.
  - exists true. destruct st; simpl in *; now subst.
  - destruct (audioSupported st).
    + now exists true.
    + exists false. destruct st; simpl in *; now subst.
Qed.

Lemma playNote_cases (n : Note.t) (st : State) :
  exists l, playNote n st = withEffects l st.
Proof.
  unfold playNote, emit.
  destruct (audioContextRef st).
  - now eexists.
  - exists (effects st). now destruct st.
Qed.

Lemma toast_cases (title : string) (st : State) :
  exists l, toast title st = withEffects l st.
Proof.
  unfold toast, emit. now eexists.
Qed.

(** Rewrites the audio and logging steps of a handler into plain field
    updates, so that projections compute through them. *)
Ltac plain_updates :=
  repeat match goal with
    | |- context [initAudioContext ?st] =>
        let b := fresh "ctx" in
        let E := fresh "Ectx" in
        destruct (initAudioContext_cases st) as [b E]; rewrite E; clear E
    | |- context [playNote ?n ?st] =>
        let l := fresh "log" in
        let E := fresh "Elog" in
        destruct (playNote_cases n st) as [l E]; rewrite E; clear E
    | |- context [toast ?t ?st] =>
        let l := fresh "log" in
        let E := fresh "Elog" in
        destruct (toast_cases t st) as [l E]; rewrite E; clear E
    end.

(** ** Creating shapes *)

Lemma at_index_random_In {A : Type} (a : list A) (r : Q) :
  is_random r -> a <> [] ->
  exists c, at_index a (Qfloor (r * inject_Z (Z.of_nat (length a)))) = Some c
            /\ In c a.
Proof.
  intros [Hr0 Hr1] Ha.
  set (n := Z.of_nat (length a)).
  assert (Hn : (0 < n)%Z) by (destruct a; [congruence | subst n; simpl; lia]).
  assert (HnQ : 0 < inject_Z n) by (rewrite (Zlt_Qlt 0 n) in Hn; exact Hn).
  set (z := Qfloor (r * inject_Z n)).
  assert (Hz0 : (0 <= z)%Z).
  { change 0%Z with (Qfloor 0). apply Qfloor_resp_le. nra. }
  assert (Hz1 : (z < n)%Z).
  { rewrite Zlt_Qlt. eapply Qle_lt_trans; [apply Qfloor_le|]. nra. }
  unfold at_index. destruct (z <? 0)%Z eqn:Hneg; [lia|].
  destruct (a !! Z.to_nat z) as [c|] eqn:Hc.
  - exists c. split; [reflexivity|].
    apply list_elem_of_In. eapply list_elem_of_lookup_2. exact Hc.
  - apply lookup_ge_None in Hc. subst n. lia.
Qed.

Lemma getRandomColor_in_palette (r : Q) (st : State) :
  is_random r -> In (getRandomColor r st) (COLOR_PALETTES (currentPalette st)).
Proof.
  intros Hr. unfold getRandomColor.
  destruct (at_index_random_In (COLOR_PALETTES (currentPalette st)) r Hr)
    as (c & -> & Hc); [|exact Hc].
  now destruct (currentPalette st).
Qed.

Lemma shapes_createShape (e : Entropy) (x y : Q) (st : State) :
  shapes (createShape e x y st)
  = if eraserMode st then shapes st else shapes st ++ [newShape e x y st].
Proof.
  unfold createShape. destruct (eraserMode st); [reflexivity|].
  unfold createSpreadingWave. plain_updates. reflexivity.
Qed.

Lemma shapes_handlePointerDown_empty (cx cy : Q) (e : Entropy) (now : Q)
    (st : State) (rect : Rect.t) :
  canvasRef st = Some rect ->
  findShapeAt (shapes st) (cx - Rect.left rect) (cy - Rect.top rect) = None ->
  shapes (handlePointerDown cx cy e now st)
  = if eraserMode st then shapes st
    else shapes st
         ++ [newShape e (cx - Rect.left rect) (cy - Rect.top rect) st].
Proof.
  intros Hc Hf. unfold handlePointerDown. plain_updates. simpl.
  rewrite Hc, Hf. rewrite shapes_createShape. reflexivity.
Qed.

(** C1, as amended.  With the eraser off, a pointer-down at a point
    where [findShapeAt] finds no shape appends exactly one shape to the
    list; its colour is an element of the selected palette's colour array
    and its size lies within [currentSize - 10, currentSize + 10].  The
    two [Math.random()] draws are numbers of [[0, 1)]. *)
Theorem tap_on_empty_space_adds_one_shape (cx cy : Q) (e : Entropy) (now : Q)
    (st : State) (rect : Rect.t) :
  canvasRef st = Some rect ->
  eraserMode st = false ->
  is_random (randomColor e) ->
  is_random (randomSize e) ->
  findShapeAt (shapes st) (cx - Rect.left rect) (cy - Rect.top rect) = None ->
  exists s,
    shapes (handlePointerDown cx cy e now st) = shapes st ++ [s] /\
    In (Shape.color s) (COLOR_PALETTES (currentPalette st)) /\
    currentSize st - 10 <= Shape.size s /\
    Shape.size s <= currentSize st + 10.
Proof.
  intros Hc He Hcol [Hs0 Hs1] Hf.
  exists (newShape e (cx - Rect.left rect) (cy - Rect.top rect) st).
  rewrite (shapes_handlePointerDown_empty cx cy e now st rect Hc Hf), He.
  split; [reflexivity|].
  split; [now apply getRandomColor_in_palette|].
  unfold newShape; simpl. split; lra.
Qed.

(** C1 as stated fails: with the eraser on, a pointer-down on empty
    space adds no shape ([createShape] returns at its first line). *)
Lemma tap_on_empty_space_with_eraser_adds_nothing :
  eraserMode erasing_empty_canvas = true /\
  findShapeAt (shapes erasing_empty_canvas) (100 - 0) (100 - 0) = None /\
  is_random (randomColor sample_entropy) /\
  is_random (randomSize sample_entropy) /\
  shapes (handlePointerDown 100 100 sample_entropy 0 erasing_empty_canvas)
  = shapes erasing_empty_canvas /\
  ~ (exists s,
       shapes (handlePointerDown 100 100 sample_entropy 0 erasing_empty_canvas)
       = shapes erasing_empty_canvas ++ [s]).
Proof.
  repeat split; try reflexivity; try (vm_compute; congruence).
  intros [s Hs]. vm_compute in Hs. discriminate Hs.
Qed.

Lemma tap_on_empty_space_adds_one_shape_witness :
  exists s,
    shapes (handlePointerDown 100 100 sample_entropy 0
              (initialState (Rect.mk 0 0) true))
    = shapes (initialState (Rect.mk 0 0) true) ++ [s] /\
    In (Shape.color s) (COLOR_PALETTES Palette.pastels) /\
    80 - 10 <= Shape.size s /\
    Shape.size s <= 80 + 10.
Proof.
  apply (tap_on_empty_space_adds_one_shape 100 100 sample_entropy 0
           (initialState (Rect.mk 0 0) true) (Rect.mk 0 0)).
  - reflexivity.
  - reflexivity.
  - split; vm_compute; congruence.
  - split; vm_compute; congruence.
  - reflexivity.
Defined.

(** ** Erasing shapes *)

Lemma filter_other_ids (s : Shape.t) (l : list Shape.t) :
  ~ In (Shape.id s) (map Shape.id l) ->
  List.filter (fun shape => negb (Shape.id shape =? Shape.id s)%string) l = l.
Proof.
  induction l as [|t l IH]; intros Hn; [reflexivity|].
  simpl in *.
  destruct (String.eqb_spec (Shape.id t) (Shape.id s)) as [Heq|Hne].
  - exfalso. apply Hn. now left.
  - simpl. f_equal. apply IH. intros Hin. apply Hn. now right.
Qed.

Lemma filter_removes_unique_id (s : Shape.t) (before after : list Shape.t) :
  List.NoDup (map Shape.id (before ++ s :: after)) ->
  List.filter (fun shape => negb (Shape.id shape =? Shape.id s)%string)
    (before ++ s :: after)
  = before ++ after.
Proof.
  intros Hnd.
  rewrite map_app in Hnd. simpl in Hnd.
  apply List.NoDup_remove in Hnd as [_ Hnotin].
  rewrite List.filter_app. simpl.
  rewrite String.eqb_refl. simpl.
  rewrite !filter_other_ids; [reflexivity | |];
    intros Hin; apply Hnotin, in_or_app; [now right | now left].
Qed.

Lemma shapes_deleteShape (s : Shape.t) (st : State) :
  shapes (deleteShape s st)
  = List.filter (fun shape => negb (Shape.id shape =? Shape.id s)%string)
      (shapes st).
Proof.
  unfold deleteShape. plain_updates. reflexivity.
Qed.

(** C2.  With pairwise-distinct ids and the eraser on, a pointer-down
    that hits a shape removes exactly the shape returned by
    [findShapeAt]: the shapes before it and after it in the list stay, in
    order and unchanged. *)
Theorem eraser_tap_removes_exactly_the_touched_shape (cx cy : Q)
    (e : Entropy) (now : Q) (st : State) (rect : Rect.t) (s : Shape.t) :
  List.NoDup (map Shape.id (shapes st)) ->
  canvasRef st = Some rect ->
  eraserMode st = true ->
  findShapeAt (shapes st) (cx - Rect.left rect) (cy - Rect.top rect) = Some s ->
  exists before after,
    shapes st = before ++ s :: after /\
    shapes (handlePointerDown cx cy e now st) = before ++ after /\
    ~ In s (before ++ after).
Proof.
  intros Hnd Hc He Hf.
  destruct (findShapeAt_Some_split _ _ _ _ Hf) as (before & after & Heq & _).
  exists before, after. split; [exact Heq|].
  split.
  - unfold handlePointerDown. plain_updates. simpl.
    rewrite Hc, Hf, He, shapes_deleteShape. simpl.
    rewrite Heq. apply filter_removes_unique_id. now rewrite <- Heq.
  - rewrite Heq, map_app in Hnd. simpl in Hnd.
    apply List.NoDup_remove in Hnd as [_ Hnotin].
    intros Hin. apply Hnotin.
    rewrite <- map_app. now apply in_map.
Qed.

Lemma eraser_tap_removes_exactly_the_touched_shape_witness :
  exists before after,
    shapes erasing_two_shapes
    = before ++ newShape sample_entropy 100 100 empty_canvas :: after /\
    shapes (handlePointerDown 100 100 sample_entropy 20000 erasing_two_shapes)
    = before ++ after /\
    ~ In (newShape sample_entropy 100 100 empty_canvas) (before ++ after).
Proof.
  apply (eraser_tap_removes_exactly_the_touched_shape 100 100 sample_entropy
           20000 erasing_two_shapes (Rect.mk 0 0)).
  - vm_compute. repeat constructor; simpl; intuition discriminate.
  - reflexivity.
  - reflexivity.
  - reflexivity.
Defined.

(** ** The long-press gesture *)

(** A pointer-down on a shape with the eraser off only arms the gesture:
    it registers a timer and a progress ticker. *)
Lemma handlePointerDown_press (cx cy : Q) (e : Entropy) (now : Q)
    (st : State) (rect : Rect.t) (s : Shape.t) :
  canvasRef st = Some rect ->
  eraserMode st = false ->
  findShapeAt (shapes st) (cx - Rect.left rect) (cy - Rect.top rect) = Some s ->
  let st' := handlePointerDown cx cy e now st in
  shapes st' = shapes st /\
  draggedShape st' = draggedShape st /\
  longPressTimer st' = Some (nextHandle st) /\
  timeouts st'
  = <[nextHandle st :=
        mkLongPress s (cx - Rect.left rect) (cy - Rect.top rect)]>
      (timeouts st).
Proof.
  intros Hc He Hf. unfold handlePointerDown. plain_updates. simpl.
  rewrite Hc, Hf, He. simpl. repeat split.
Qed.

Lemma progressTick_frame (h : positive) (now : Q) (st : State) :
  let st' := progressTick h now st in
  shapes st' = shapes st /\ draggedShape st' = draggedShape st /\
  longPressTimer st' = longPressTimer st /\ timeouts st' = timeouts st.
Proof.
  unfold progressTick. destruct (intervals st !! h) as [start|]; [|easy].
  simpl. destruct (Qle_bool 1 (Qmin ((now - start) / 1500) 1)); easy.
Qed.

(** While no shape is dragged, the events that may precede the release
    leave the shapes and the pending gesture alone. *)
Lemma quiet_step (ev : Event) (st : State) :
  quiet ev = true ->
  draggedShape st = None ->
  let st' := step st ev in
  shapes st' = shapes st /\ draggedShape st' = None /\
  longPressTimer st' = longPressTimer st /\ timeouts st' = timeouts st.
Proof.
  intros Hq Hd. destruct ev; try discriminate Hq; simpl.
  - unfold handlePointerMove. rewrite Hd. easy.
  - destruct (progressTick_frame h now st) as (-> & -> & -> & ->). easy.
  - easy.
Qed.

Lemma quiet_run (evs : list Event) (st : State) :
  forallb quiet evs = true ->
  draggedShape st = None ->
  let st' := run st evs in
  shapes st' = shapes st /\ draggedShape st' = None /\
  longPressTimer st' = longPressTimer st /\ timeouts st' = timeouts st.
Proof.
  revert st. induction evs as [|ev evs IH]; intros st Hq Hd; [easy|].
  simpl in Hq. apply andb_true_iff in Hq as [Hev Hevs].
  destruct (quiet_step ev st Hev Hd) as (Hs & Hd' & Ht & Hm).
  destruct (IH (step st ev) Hevs Hd') as (Hs2 & Hd2 & Ht2 & Hm2).
  simpl. unfold run in *. simpl.
  rewrite Hs2, Ht2, Hm2. easy.
Qed.

(** What [handlePointerUp] does to the shapes. *)
Lemma shapes_handlePointerUp (st : State) :
  shapes (handlePointerUp st)
  = match draggedShape st with
    | Some dragged =>
        map (fun shape =>
               if (Shape.id shape =? Shape.id dragged)%string
               then Shape.withOpacity 1 shape
               else shape)
            (shapes st)
    | None => shapes st
    end.
Proof.
  unfold handlePointerUp.
  destruct (draggedShape st); destruct (longPressTimer st);
    plain_updates; reflexivity.
Qed.

(** The interaction state after any pointer-up, and the one timer that
    it cancels. *)
Lemma handlePointerUp_resets (st : State) :
  let st' := handlePointerUp st in
  draggedShape st' = None /\
  dragOffset st' = mkPoint 0 0 /\
  showLongPressIndicator st' = false /\
  longPressProgress st' = 0 /\
  longPressTimer st' = None /\
  timeouts st'
  = match longPressTimer st with
    | Some h => base.delete h (timeouts st)
    | None => timeouts st
    end.
Proof.
  unfold handlePointerUp.
  destruct (draggedShape st); destruct (longPressTimer st) eqn:Ht;
    plain_updates; simpl; rewrite ?Ht; repeat split.
Qed.

(** When the only pending timer is the remembered one, a pointer-up
    leaves no timer pending. *)
Lemma handlePointerUp_cancels_stored_timer (st : State) :
  only_stored_timer st -> timeouts (handlePointerUp st) = ∅.
Proof.
  intros Hinv.
  destruct (handlePointerUp_resets st) as (_ & _ & _ & _ & _ & ->).
  apply map_empty. intros h.
  destruct (longPressTimer st) as [k|] eqn:Hk.
  - destruct (decide (k = h)) as [->|Hne].
    + apply lookup_delete_eq.
    + rewrite lookup_delete_ne by assumption.
      destruct (timeouts st !! h) eqn:Hh; [|reflexivity].
      assert (longPressTimer st = Some h) by (apply Hinv; now rewrite Hh).
      congruence.
  - destruct (timeouts st !! h) eqn:Hh; [|reflexivity].
    assert (longPressTimer st = Some h) by (apply Hinv; now rewrite Hh).
    congruence.
Qed.

Lemma run_app (st : State) (evs1 evs2 : list Event) :
  run st (evs1 ++ evs2) = run (run st evs1) evs2.
Proof.
  apply fold_left_app.
Qed.

(** C4, as amended.  A pointer-down on an existing shape with the
    eraser off, arriving while no shape is being dragged, and followed by
    a pointer-up with no long-press timer elapsing in between (neither the
    timer this press starts nor an earlier one that is still pending: only
    pointer moves, ticks of the progress ring and ticks of the particle
    interval come in between), leaves the shape list as it was: nothing is
    created, deleted or moved, and no opacity changes.  The timer that the
    pointer-down started is cancelled. *)
Theorem short_press_leaves_shapes_unchanged (cx cy : Q) (e : Entropy)
    (now : Q) (st : State) (rect : Rect.t) (s : Shape.t)
    (between : list Event) :
  canvasRef st = Some rect ->
  eraserMode st = false ->
  draggedShape st = None ->
  findShapeAt (shapes st) (cx - Rect.left rect) (cy - Rect.top rect) = Some s ->
  forallb quiet between = true ->
  let st' := run st (PointerDown cx cy e now :: between ++ [PointerUp]) in
  shapes st' = shapes st /\
  draggedShape st' = None /\
  timeouts st' !! nextHandle st = None.
Proof.
  intros Hc He Hd Hf Hq. simpl.
  change (run st (PointerDown cx cy e now :: between ++ [PointerUp]))
    with (run (handlePointerDown cx cy e now st) (between ++ [PointerUp])).
  rewrite run_app.
  destruct (handlePointerDown_press cx cy e now st rect s Hc He Hf)
    as (Hs1 & Hd1 & Ht1 & Hm1).
  rewrite Hd in Hd1.
  destruct (quiet_run between _ Hq Hd1) as (Hs2 & Hd2 & Ht2 & Hm2).
  set (st2 := run (handlePointerDown cx cy e now st) between) in *.
  change (run st2 [PointerUp]) with (handlePointerUp st2).
  destruct (handlePointerUp_resets st2) as (Hd3 & _ & _ & _ & _ & Hm3).
  rewrite shapes_handlePointerUp, Hd2, Hs2, Hs1.
  split; [reflexivity|]. split; [exact Hd3|].
  rewrite Hm3, Ht2, Ht1. apply lookup_delete_eq.
Qed.

Lemma short_press_leaves_shapes_unchanged_witness :
  shapes (run one_shape_canvas
            (PointerDown 100 100 sample_entropy 10000
             :: [PointerMove 101 100; ProgressTick 2 10016; ParticleTick]
             ++ [PointerUp]))
  = shapes one_shape_canvas /\
  draggedShape (run one_shape_canvas
                  (PointerDown 100 100 sample_entropy 10000
                   :: [PointerMove 101 100; ProgressTick 2 10016; ParticleTick]
                   ++ [PointerUp]))
  = None /\
  timeouts (run one_shape_canvas
              (PointerDown 100 100 sample_entropy 10000
               :: [PointerMove 101 100; ProgressTick 2 10016; ParticleTick]
               ++ [PointerUp]))
  !! nextHandle one_shape_canvas = None.
Proof.
  apply (short_press_leaves_shapes_unchanged 100 100 sample_entropy 10000
           one_shape_canvas (Rect.mk 0 0)
           (newShape sample_entropy 100 100 empty_canvas)).
  - reflexivity.
  - reflexivity.
  - reflexivity.
  - reflexivity.
  - reflexivity.
Defined.

(** C4 as stated fails in two ways.  When the pointer-down arrives
    while a shape is being dragged, the pointer-up that follows ends that
    drag and sets the dragged shape's opacity to 1.  And when an earlier
    long-press timer is still pending (its handle was overwritten by a
    second pointer-down) and elapses between the press and the release,
    the release finds a dragged shape as well: the press's own timer
    (handle 5) never elapses, yet the opacity goes from 0.9 to 1.  In both
    cases the shape list differs from the one before the pointer-down. *)
Lemma short_press_during_drag_changes_opacity :
  (eraserMode dragging_canvas = false /\
   findShapeAt (shapes dragging_canvas) (100 - 0) (100 - 0)
   = Some (Shape.withOpacity (7 # 10)
             (newShape sample_entropy 100 100 empty_canvas)) /\
   map Shape.opacity (shapes dragging_canvas) = [7 # 10] /\
   map Shape.opacity
     (shapes (run dragging_canvas
                [PointerDown 100 100 sample_entropy 12000; PointerUp]))
   = [1] /\
   shapes (run dragging_canvas
             [PointerDown 100 100 sample_entropy 12000; PointerUp])
   <> shapes dragging_canvas) /\
  (eraserMode stale_timer_canvas = false /\
   draggedShape stale_timer_canvas = None /\
   findShapeAt (shapes stale_timer_canvas) (100 - 0) (100 - 0)
   = Some (newShape sample_entropy 100 100 empty_canvas) /\
   map Shape.opacity (shapes stale_timer_canvas) = [9 # 10] /\
   longPressTimer
     (run stale_timer_canvas [PointerDown 100 100 sample_entropy 12000])
   = Some 5%positive /\
   map Shape.opacity
     (shapes (run stale_timer_canvas
                [PointerDown 100 100 sample_entropy 12000;
                 LongPressElapsed 1; PointerUp]))
   = [1] /\
   shapes (run stale_timer_canvas
             [PointerDown 100 100 sample_entropy 12000;
              LongPressElapsed 1; PointerUp])
   <> shapes stale_timer_canvas).
Proof.
  repeat apply conj; try (vm_compute; reflexivity);
    vm_compute; discriminate.
Qed.

(** ** Timers along a single-pointer gesture stream *)

Lemma handlePointerDown_timers (cx cy : Q) (e : Entropy) (now : Q)
    (st : State) :
  let st' := handlePointerDown cx cy e now st in
  (timeouts st' = timeouts st /\ longPressTimer st' = longPressTimer st) \/
  (exists cb,
      timeouts st' = <[nextHandle st := cb]> (timeouts st) /\
      longPressTimer st' = Some (nextHandle st)).
Proof.
  unfold handlePointerDown. plain_updates. simpl.
  destruct (canvasRef st); [|now left].
  destruct (findShapeAt _ _ _) as [s|].
  - destruct (eraserMode st).
    + left. unfold deleteShape. plain_updates. easy.
    + right. simpl. eexists. split; reflexivity.
  - left. unfold createShape. simpl.
    destruct (eraserMode st); [easy|].
    unfold createSpreadingWave. plain_updates. easy.
Qed.

(** Apart from the two pointer handlers no event registers a timer or
    writes [longPressTimer]. *)
Lemma other_events_timers (ev : Event) (st : State) :
  match ev with
  | PointerDown _ _ _ _ | PointerUp => True
  | _ =>
      longPressTimer (step st ev) = longPressTimer st /\
      forall h,
        is_Some (timeouts (step st ev) !! h) -> is_Some (timeouts st !! h)
  end.
Proof.
  destruct ev; simpl; try exact I.
  - unfold handlePointerMove.
    destruct (draggedShape st); [|easy].
    destruct (canvasRef st); easy.
  - unfold longPressElapsed.
    destruct (timeouts st !! h) eqn:Hh; [|easy].
    plain_updates. simpl. split; [reflexivity|].
    intros k Hk. destruct (decide (h = k)) as [->|Hne].
    + rewrite lookup_delete_eq in Hk. now destruct Hk.
    + now rewrite lookup_delete_ne in Hk.
  - destruct (progressTick_frame h now st) as (_ & _ & -> & ->). easy.
  - easy.
  - unfold cycleShape. plain_updates.
    destruct (at_index shapeOrder _); easy.
  - unfold cyclePalette. plain_updates.
    destruct (at_index paletteOrder _); easy.
  - unfold increaseSize. plain_updates. easy.
  - unfold decreaseSize. plain_updates. easy.
  - unfold toggleEraser. plain_updates. easy.
  - unfold clearCanvas.
    destruct (0 <? length (shapes st))%nat; [|easy].
    plain_updates. easy.
Qed.

Lemma timers_tracked_subset (down : bool) (st st' : State) :
  longPressTimer st' = longPressTimer st ->
  (forall h, is_Some (timeouts st' !! h) -> is_Some (timeouts st !! h)) ->
  timers_tracked down st ->
  timers_tracked down st'.
Proof.
  intros Hl Hsub Ht. destruct down; simpl in *.
  - intros k Hk. rewrite Hl. apply Ht, Hsub, Hk.
  - apply map_empty. intros k.
    destruct (timeouts st' !! k) eqn:Hk; [|reflexivity].
    destruct (Hsub k) as [cb Hcb]; [now rewrite Hk|].
    rewrite Ht, lookup_empty in Hcb. discriminate.
Qed.

Lemma timers_tracked_run (evs : list Event) (down down' : bool) (st : State) :
  pointer_after down evs = Some down' ->
  timers_tracked down st ->
  timers_tracked down' (run st evs).
Proof.
  revert down st. induction evs as [|ev evs IH]; intros down st Hp Ht.
  - simpl in Hp. now injection Hp as <-.
  - change (run st (ev :: evs)) with (run (step st ev) evs).
    pose proof (other_events_timers ev st) as Hother.
    destruct ev; simpl in Hp;
      try (apply (IH down _ Hp); destruct Hother as [Hl Hsub];
           exact (timers_tracked_subset down st _ Hl Hsub Ht)).
    + destruct down; [discriminate|].
      apply (IH true _ Hp). simpl in *.
      destruct (handlePointerDown_timers clientX clientY e now st)
        as [[Hm Hl]|(cb & Hm & Hl)]; intros k Hk; rewrite Hm, Ht in Hk.
      * rewrite lookup_empty in Hk. now destruct Hk.
      * rewrite Hl. destruct (decide (nextHandle st = k)) as [->|Hne];
          [reflexivity|].
        rewrite lookup_insert_ne, lookup_empty in Hk by assumption.
        now destruct Hk.
    + destruct down; [|discriminate].
      apply (IH false _ Hp). simpl in *.
      now apply handlePointerUp_cancels_stored_timer.
Qed.

(** With a single pointer, every pointer-up leaves the interaction state
    reset and no long-press timer pending. *)
Lemma single_pointer_release_resets (rect : Rect.t) (audio : bool)
    (evs : list Event) :
  pointer_after false evs = Some true ->
  let st' := handlePointerUp (run (initialState rect audio) evs) in
  draggedShape st' = None /\
  dragOffset st' = mkPoint 0 0 /\
  showLongPressIndicator st' = false /\
  longPressProgress st' = 0 /\
  longPressTimer st' = None /\
  timeouts st' = ∅.
Proof.
  intros Hp. simpl.
  destruct (handlePointerUp_resets (run (initialState rect audio) evs))
    as (H1 & H2 & H3 & H4 & H5 & _).
  repeat (split; [assumption|]).
  apply handlePointerUp_cancels_stored_timer.
  apply (timers_tracked_run evs false true _ Hp). reflexivity.
Qed.

(** C5.  The code at a completed drag of a freshly created shape: the
    shape is created with opacity 0.9, the elapsed long-press timer
    reduces it to 0.7, and the pointer-up handler sets it to 1, which is
    not the opacity the shape had before the drag began. *)
Theorem drag_release_sets_opacity_one_not_previous :
  map Shape.opacity (shapes one_shape_canvas) = [9 # 10] /\
  map Shape.opacity (shapes pressing_canvas) = [9 # 10] /\
  dragging_canvas = longPressElapsed 1 pressing_canvas /\
  map Shape.id (shapes dragging_canvas)
  = match draggedShape dragging_canvas with
    | Some dragged => [Shape.id dragged]
    | None => []
    end /\
  map Shape.opacity (shapes dragging_canvas) = [7 # 10] /\
  map Shape.opacity (shapes (handlePointerUp dragging_canvas)) = [1] /\
  ~ 1 == 9 # 10.
Proof.
  repeat apply conj; try (vm_compute; reflexivity).
  intros H. vm_compute in H. discriminate H.
Qed.

(** C10.  The code after two pointer-downs on a shape (eraser off) and
    one pointer-up.  Before the pointer-up the component is in its
    pending long-press state; the second pointer-down overwrote the
    remembered handle of the first timer, so the pointer-up cancels only
    the second one.  The state cells are reset, yet timer 1 is still
    pending, and when it elapses the shape enters the drag state although
    no pointer is down. *)
Theorem pointer_up_leaves_overwritten_timer_pending :
  let pressed :=
    run one_shape_canvas
      [PointerDown 100 100 sample_entropy 10000;
       PointerDown 100 100 sample_entropy 10200] in
  let st := handlePointerUp pressed in
  (draggedShape pressed = None /\
   showLongPressIndicator pressed = true /\
   longPressTimer pressed = Some 3%positive) /\
  (draggedShape st = None /\
   dragOffset st = mkPoint 0 0 /\
   showLongPressIndicator st = false /\
   longPressProgress st = 0 /\
   longPressTimer st = None) /\
  timeouts st !! 3%positive = None /\
  timeouts st !! 1%positive
  = Some (mkLongPress (newShape sample_entropy 100 100 empty_canvas)
            100 100) /\
  draggedShape (longPressElapsed 1 st)
  = Some (newShape sample_entropy 100 100 empty_canvas) /\
  map Shape.opacity (shapes (longPressElapsed 1 st)) = [7 # 10].
Proof.
  repeat apply conj; vm_compute; reflexivity.
Qed.

(** ** Size of new shapes *)

Lemma clamp_up_in_range (s : Q) :
  20 <= s <= 200 -> 20 <= Qmin (s + 20) 200 <= 200.
Proof.
  intros [Hlo Hhi]. split.
  - apply Q.min_glb; lra.
  - apply Q.le_min_r.
Qed.

Lemma clamp_down_in_range (s : Q) :
  20 <= s <= 200 -> 20 <= Qmax (s - 20) 20 <= 200.
Proof.
  intros [Hlo Hhi]. split.
  - apply Q.le_max_r.
  - apply Q.max_lub; lra.
Qed.

Lemma currentSize_increaseSize (st : State) :
  currentSize (increaseSize st) = Qmin (currentSize st + 20) 200.
Proof.
  unfold increaseSize. plain_updates. reflexivity.
Qed.

Lemma currentSize_decreaseSize (st : State) :
  currentSize (decreaseSize st) = Qmax (currentSize st - 20) 20.
Proof.
  unfold decreaseSize. plain_updates. reflexivity.
Qed.

(** Only the two size buttons write [currentSize]. *)
Lemma currentSize_step (st : State) (ev : Event) :
  currentSize (step st ev)
  = match ev with
    | IncreaseSize => Qmin (currentSize st + 20) 200
    | DecreaseSize => Qmax (currentSize st - 20) 20
    | _ => currentSize st
    end.
Proof.
  destruct ev; simpl.
  - unfold handlePointerDown. plain_updates. simpl.
    destruct (canvasRef st); [|reflexivity].
    destruct (findShapeAt _ _ _).
    + destruct (eraserMode st); [|reflexivity].
      unfold deleteShape. plain_updates. reflexivity.
    + unfold createShape. simpl. destruct (eraserMode st); [reflexivity|].
      unfold createSpreadingWave. plain_updates. reflexivity.
  - unfold handlePointerMove.
    destruct (draggedShape st); [|reflexivity].
    destruct (canvasRef st); reflexivity.
  - unfold handlePointerUp.
    destruct (draggedShape st); destruct (longPressTimer st);
      plain_updates; reflexivity.
  - unfold longPressElapsed.
    destruct (timeouts st !! h); [|reflexivity].
    plain_updates. reflexivity.
  - unfold progressTick.
    destruct (intervals st !! h) as [start|]; [|reflexivity].
    simpl. destruct (Qle_bool 1 (Qmin ((now - start) / 1500) 1)); reflexivity.
  - reflexivity.
  - unfold cycleShape. plain_updates.
    destruct (at_index shapeOrder _); reflexivity.
  - unfold cyclePalette. plain_updates.
    destruct (at_index paletteOrder _); reflexivity.
  - apply currentSize_increaseSize.
  - apply currentSize_decreaseSize.
  - unfold toggleEraser. plain_updates. reflexivity.
  - unfold clearCanvas.
    destruct (0 <? length (shapes st))%nat; [|reflexivity].
    plain_updates. reflexivity.
Qed.

Lemma currentSize_step_in_range (st : State) (ev : Event) :
  20 <= currentSize st <= 200 -> 20 <= currentSize (step st ev) <= 200.
Proof.
  intros H. rewrite currentSize_step.
  destruct ev; try exact H.
  - now apply clamp_up_in_range.
  - now apply clamp_down_in_range.
Qed.

Lemma currentSize_run_in_range (evs : list Event) (st : State) :
  20 <= currentSize st <= 200 -> 20 <= currentSize (run st evs) <= 200.
Proof.
  revert st. induction evs as [|ev evs IH]; intros st H; [exact H|].
  apply (IH (step st ev)). now apply currentSize_step_in_range.
Qed.

(** C6.  [increaseSize] maps the size [s] to [min(s + 20, 200)] and
    [decreaseSize] maps it to [max(s - 20, 20)]; both preserve
    [20 <= size <= 200]; and starting from the initial size 80 the size
    stays within [20, 200] after every finite sequence of events, in
    particular after every sequence of [increaseSize] and [decreaseSize]
    calls. *)
Theorem size_stays_within_bounds :
  (forall st, currentSize (increaseSize st) = Qmin (currentSize st + 20) 200) /\
  (forall st, currentSize (decreaseSize st) = Qmax (currentSize st - 20) 20) /\
  (forall st,
      20 <= currentSize st <= 200 ->
      20 <= currentSize (increaseSize st) <= 200 /\
      20 <= currentSize (decreaseSize st) <= 200) /\
  (forall rect audio, currentSize (initialState rect audio) = 80) /\
  (forall rect audio evs,
      20 <= currentSize (run (initialState rect audio) evs) <= 200).
Proof.
  split; [exact currentSize_increaseSize|].
  split; [exact currentSize_decreaseSize|].
  split.
  - intros st H. split.
    + apply (currentSize_step_in_range st IncreaseSize H).
    + apply (currentSize_step_in_range st DecreaseSize H).
  - split; [reflexivity|].
    intros rect audio evs. apply currentSize_run_in_range.
    simpl. split; vm_compute; discriminate.
Qed.

Lemma size_stays_within_bounds_witness :
  20 <= currentSize (increaseSize one_shape_canvas) <= 200 /\
  20 <= currentSize (decreaseSize one_shape_canvas) <= 200.
Proof.
  apply (proj1 (proj2 (proj2 size_stays_within_bounds)) one_shape_canvas).
  split; vm_compute; discriminate.
Defined.

(** ** Clearing the canvas *)

(** C7.  With at least one shape present, [clearCanvas] empties both
    the shape list and the particle list.  With no shape it returns the
    state unchanged: nothing is cleared, and the log of sounds and toasts
    does not grow. *)
Theorem clearCanvas_empties_or_does_nothing (st : State) :
  (shapes st <> [] ->
   shapes (clearCanvas st) = [] /\ particles (clearCanvas st) = []) /\
  (shapes st = [] ->
   clearCanvas st = st /\ effects (clearCanvas st) = effects st).
Proof.
  split.
  - intros Hne. unfold clearCanvas.
    destruct (shapes st) as [|s l] eqn:Hs; [congruence|]. simpl.
    plain_updates. split; reflexivity.
  - intros He. unfold clearCanvas. rewrite He. split; reflexivity.
Qed.

Lemma clearCanvas_empties_or_does_nothing_witness :
  (shapes (clearCanvas one_shape_canvas) = [] /\
   particles (clearCanvas one_shape_canvas) = []) /\
  (clearCanvas empty_canvas = empty_canvas /\
   effects (clearCanvas empty_canvas) = effects empty_canvas).
Proof.
  split.
  - apply (proj1 (clearCanvas_empties_or_does_nothing one_shape_canvas)).
    vm_compute. discriminate.
  - apply (proj2 (clearCanvas_empties_or_does_nothing empty_canvas)).
    reflexivity.
Defined.

(** ** Particle ageing *)

Lemma ageParticles_cons (p : Particle.t) (ps : list Particle.t) :
  ageParticles (p :: ps)
  = if gtb (Particle.life p - 1) 0
    then ageParticle p :: ageParticles ps
    else ageParticles ps.
Proof.
  reflexivity.
Qed.

Lemma ageParticles_app (ps qs : list Particle.t) :
  ageParticles (ps ++ qs) = ageParticles ps ++ ageParticles qs.
Proof.
  unfold ageParticles. rewrite map_app. apply List.filter_app.
Qed.

Lemma In_ageParticles (q : Particle.t) (ps : list Particle.t) :
  In q (ageParticles ps)
  <-> exists p, In p ps /\ q = ageParticle p /\ 0 < Particle.life p - 1.
Proof.
  unfold ageParticles. rewrite List.filter_In, in_map_iff, gtb_lt.
  split.
  - intros [(p & <- & Hp) Hlife]. exists p. repeat split; assumption.
  - intros (p & Hp & -> & Hlife). split; [|exact Hlife].
    exists p. split; [reflexivity | exact Hp].
Qed.

(** C8.  One tick of the particle interval, particle by particle: the
    tick replaces a particle by a copy whose life is smaller by exactly 1,
    and keeps that copy if and only if the decremented life is greater
    than 0; otherwise the particle is gone.  Ticks act on each particle
    of the collection independently and keep their order. *)
Theorem particle_tick_decrements_and_prunes (p : Particle.t)
    (ps qs : list Particle.t) (st : State) :
  particles (updateParticles st) = ageParticles (particles st) /\
  ageParticles (ps ++ p :: qs)
  = ageParticles ps ++ ageParticles [p] ++ ageParticles qs /\
  Particle.life (ageParticle p) = Particle.life p - 1 /\
  Particle.life (ageParticle p) < Particle.life p /\
  (ageParticles [p] = [ageParticle p] <-> 0 < Particle.life p - 1) /\
  (ageParticles [p] = [] <-> Particle.life p - 1 <= 0) /\
  (forall q,
      In q (ageParticles ps)
      <-> exists p0, In p0 ps /\ q = ageParticle p0 /\ 0 < Particle.life q).
Proof.
  split; [reflexivity|].
  split; [rewrite ageParticles_app; f_equal; apply (ageParticles_app [p] qs)|].
  split; [reflexivity|].
  split; [simpl; lra|].
  split; [|split].
  - rewrite ageParticles_cons. change (ageParticles []) with (@nil Particle.t).
    destruct (gtb (Particle.life p - 1) 0) eqn:Hg.
    + apply gtb_lt in Hg. split; [intros _; exact Hg | reflexivity].
    + apply gtb_le in Hg. split; [discriminate | lra].
  - rewrite ageParticles_cons. change (ageParticles []) with (@nil Particle.t).
    destruct (gtb (Particle.life p - 1) 0) eqn:Hg.
    + apply gtb_lt in Hg. split; [discriminate | lra].
    + apply gtb_le in Hg. split; [intros _; exact Hg | reflexivity].
  - intros q. rewrite In_ageParticles.
    split; intros (p0 & Hp0 & -> & Hlife); exists p0; repeat split;
      assumption.
Qed.

(** A wave created with life 60 is drawn for 59 ticks and removed by the
    60th, when its life reaches 0. *)
Lemma wave_life_after_ticks (k : nat) (w : Particle.t) :
  Particle.life w = 60 ->
  (k < 60)%nat ->
  map Particle.life (Nat.iter k ageParticles [w])
  = [inject_Z (60 - Z.of_nat k)].
Proof.
  intros Hw. induction k as [|k IH]; intros Hk.
  - simpl. now rewrite Hw.
  - rewrite Nat.iter_succ.
    specialize (IH ltac:(lia)).
    destruct (Nat.iter k ageParticles [w]) as [|p [|p' l]]; try discriminate IH.
    injection IH as IH.
    rewrite ageParticles_cons. change (ageParticles []) with (@nil Particle.t).
    rewrite IH.
    assert (Hpos : gtb (inject_Z (60 - Z.of_nat k) - 1) 0 = true).
    { apply gtb_lt. unfold Qlt, Qminus, Qplus, inject_Z. simpl. lia. }
    rewrite Hpos. simpl. rewrite IH.
    unfold Qminus, Qplus, inject_Z. simpl. f_equal. f_equal. lia.
Qed.

Lemma wave_removed_by_tick_60 (w : Particle.t) :
  Particle.life w = 60 -> Nat.iter 60 ageParticles [w] = [].
Proof.
  intros Hw.
  pose proof (wave_life_after_ticks 59 w Hw ltac:(lia)) as H.
  change (Nat.iter 60 ageParticles [w])
    with (ageParticles (Nat.iter 59 ageParticles [w])).
  destruct (Nat.iter 59 ageParticles [w]) as [|p [|p' l]]; try discriminate H.
  injection H as H.
  rewrite ageParticles_cons, H. reflexivity.
Qed.

(** ** Cycling the shape kind *)

(** The successor in [shapeOrder], wrapping at the end. *)
Lemma currentShape_cycleShape (st : State) :
  currentShape (cycleShape st)
  = match currentShape st with
    | circle => star | star => triangle | triangle => heart
    | heart => square | square => hexagon | hexagon => diamond
    | diamond => flower | flower => butterfly | butterfly => rainbow
    | rainbow => circle
    end.
Proof.
  unfold cycleShape. plain_updates.
  destruct (currentShape st); reflexivity.
Qed.

Lemma cycleShape_in_range (st : State) :
  is_Some
    (at_index shapeOrder
       (Z.rem (indexOf ShapeKind_beq shapeOrder (currentShape st) + 1)
          (Z.of_nat (length shapeOrder)))).
Proof.
  destruct (currentShape st); eexists; reflexivity.
Qed.

(** C9.  Each [cycleShape] moves the current kind from its position [i]
    in the fixed list of ten kinds to position [(i + 1) mod 10], and ten
    calls bring the current kind back to where it started. *)
Theorem cycleShape_ten_times_is_identity (st : State) :
  shapeOrder
  = [circle; star; triangle; heart; square;
     hexagon; diamond; flower; butterfly; rainbow] /\
  (exists i,
      (i < 10)%nat /\
      shapeOrder !! i = Some (currentShape st) /\
      shapeOrder !! ((i + 1) mod 10)%nat = Some (currentShape (cycleShape st))) /\
  currentShape (Nat.iter 10 cycleShape st) = currentShape st.
Proof.
  split; [reflexivity|]. split.
  - rewrite currentShape_cycleShape.
    destruct (currentShape st);
      [exists 0%nat | exists 1%nat | exists 2%nat | exists 3%nat
      | exists 4%nat | exists 5%nat | exists 6%nat | exists 7%nat
      | exists 8%nat | exists 9%nat];
      (split; [lia | split; reflexivity]).
  - unfold Nat.iter. cbn [nat_rect]. rewrite !currentShape_cycleShape.
    destruct (currentShape st); reflexivity.
Qed.

(** * Further properties of the component *)

(** ** Cycling the palette *)

Lemma currentPalette_cyclePalette (st : State) :
  currentPalette (cyclePalette st)
  = match currentPalette st with
    | Palette.pastels => Palette.rainbow
    | Palette.rainbow => Palette.warm
    | Palette.warm => Palette.pastels
    end.
Proof.
  unfold cyclePalette. plain_updates.
  destruct (currentPalette st); reflexivity.
Qed.

(** X1.  Each [cyclePalette] moves the current palette from its position
    [i] in [pastels, rainbow, warm] to position [(i + 1) mod 3]; three
    calls bring it back; the shapes already drawn keep their place. *)
Theorem cyclePalette_three_times_is_identity (st : State) :
  (exists i,
      (i < 3)%nat /\
      paletteOrder !! i = Some (currentPalette st) /\
      paletteOrder !! ((i + 1) mod 3)%nat
      = Some (currentPalette (cyclePalette st))) /\
  currentPalette (Nat.iter 3 cyclePalette st) = currentPalette st /\
  shapes (cyclePalette st) = shapes st.
Proof.
  split; [|split].
  - rewrite currentPalette_cyclePalette.
    destruct (currentPalette st);
      [exists 0%nat | exists 1%nat | exists 2%nat];
      (split; [lia | split; reflexivity]).
  - unfold Nat.iter. cbn [nat_rect]. rewrite !currentPalette_cyclePalette.
    destruct (currentPalette st); reflexivity.
  - unfold cyclePalette. plain_updates.
    destruct (at_index paletteOrder _); reflexivity.
Qed.

(** ** Pointer-down with the eraser on *)

Lemma filter_In_sub {A : Type} (f : A -> bool) (l : list A) (a : A) :
  In a (List.filter f l) -> In a l.
Proof.
  intros H. now apply List.filter_In in H.
Qed.

(** X2.  While the eraser is on, a pointer-down never draws and never
    arms a long press: every shape of the new list was in the old one,
    the particles are untouched, no timer and no ticker is registered, and
    the cells of the long press and of the drag ([longPressTimer],
    [showLongPressIndicator], [longPressProgress], [draggedShape],
    [dragOffset]) keep their values. *)
Theorem eraser_pointer_down_never_draws (cx cy : Q) (e : Entropy) (now : Q)
    (st : State) :
  eraserMode st = true ->
  let st' := handlePointerDown cx cy e now st in
  (forall s, In s (shapes st') -> In s (shapes st)) /\
  particles st' = particles st /\
  timeouts st' = timeouts st /\
  intervals st' = intervals st /\
  longPressTimer st' = longPressTimer st /\
  showLongPressIndicator st' = showLongPressIndicator st /\
  longPressProgress st' = longPressProgress st /\
  draggedShape st' = draggedShape st /\
  dragOffset st' = dragOffset st.
Proof.
  intros He. unfold handlePointerDown. plain_updates. simpl.
  destruct (canvasRef st); [|easy].
  destruct (findShapeAt _ _ _) as [s|].
  - rewrite He. unfold deleteShape. plain_updates. simpl.
    split; [intros sh; apply filter_In_sub | easy].
  - unfold createShape. simpl. rewrite He. easy.
Qed.

Lemma eraser_pointer_down_never_draws_witness :
  (forall s,
      In s (shapes (handlePointerDown 300 300 sample_entropy 20000
                      erasing_two_shapes)) ->
      In s (shapes erasing_two_shapes)) /\
  particles (handlePointerDown 300 300 sample_entropy 20000 erasing_two_shapes)
  = particles erasing_two_shapes /\
  timeouts (handlePointerDown 300 300 sample_entropy 20000 erasing_two_shapes)
  = timeouts erasing_two_shapes /\
  intervals (handlePointerDown 300 300 sample_entropy 20000 erasing_two_shapes)
  = intervals erasing_two_shapes /\
  longPressTimer
    (handlePointerDown 300 300 sample_entropy 20000 erasing_two_shapes)
  = longPressTimer erasing_two_shapes /\
  showLongPressIndicator
    (handlePointerDown 300 300 sample_entropy 20000 erasing_two_shapes)
  = showLongPressIndicator erasing_two_shapes /\
  longPressProgress
    (handlePointerDown 300 300 sample_entropy 20000 erasing_two_shapes)
  = longPressProgress erasing_two_shapes /\
  draggedShape
    (handlePointerDown 300 300 sample_entropy 20000 erasing_two_shapes)
  = draggedShape erasing_two_shapes /\
  dragOffset
    (handlePointerDown 300 300 sample_entropy 20000 erasing_two_shapes)
  = dragOffset erasing_two_shapes.
Proof.
  apply (eraser_pointer_down_never_draws 300 300 sample_entropy 20000
           erasing_two_shapes).
  reflexivity.
Defined.

(** X3.  Erasing goes by id: a pointer-down with the eraser on that
    hits the shape [s] removes every shape that carries the id of [s],
    keeps all the others in their order, and makes the list shorter. *)
Theorem eraser_tap_removes_every_shape_with_the_id (cx cy : Q) (e : Entropy)
    (now : Q) (st : State) (rect : Rect.t) (s : Shape.t) :
  canvasRef st = Some rect ->
  eraserMode st = true ->
  findShapeAt (shapes st) (cx - Rect.left rect) (cy - Rect.top rect) = Some s ->
  let st' := handlePointerDown cx cy e now st in
  shapes st'
  = List.filter (fun t => negb (Shape.id t =? Shape.id s)%string) (shapes st) /\
  (forall t, In t (shapes st') <-> In t (shapes st) /\ Shape.id t <> Shape.id s) /\
  (length (shapes st') < length (shapes st))%nat.
Proof.
  intros Hc He Hf.
  assert (Hsh : shapes (handlePointerDown cx cy e now st)
                = List.filter
                    (fun t => negb (Shape.id t =? Shape.id s)%string)
                    (shapes st)).
  { unfold handlePointerDown. plain_updates. simpl.
    rewrite Hc, Hf, He. rewrite shapes_deleteShape. reflexivity. }
  simpl. rewrite Hsh. split; [reflexivity|]. split.
  - intros t. rewrite List.filter_In, negb_true_iff.
    split; intros [Hin Hid]; (split; [exact Hin|]).
    + intros Heq. apply String.eqb_eq in Heq. congruence.
    + now apply String.eqb_neq.
  - destruct (findShapeAt_Some_split _ _ _ _ Hf) as (below & above & -> & _).
    rewrite List.filter_app, !length_app. simpl.
    rewrite String.eqb_refl. simpl.
    pose proof (List.filter_length_le
                  (fun t => negb (Shape.id t =? Shape.id s)%string) below).
    pose proof (List.filter_length_le
                  (fun t => negb (Shape.id t =? Shape.id s)%string) above).
    lia.
Qed.

Lemma eraser_tap_removes_every_shape_with_the_id_witness :
  shapes (handlePointerDown 300 300 sample_entropy 20000 erasing_two_shapes)
  = List.filter
      (fun t =>
         negb (Shape.id t
               =? Shape.id (newShape other_entropy 300 300 one_shape_canvas))%string)
      (shapes erasing_two_shapes) /\
  (forall t,
      In t (shapes (handlePointerDown 300 300 sample_entropy 20000
                      erasing_two_shapes))
      <-> In t (shapes erasing_two_shapes) /\
          Shape.id t <> Shape.id (newShape other_entropy 300 300 one_shape_canvas)) /\
  (length (shapes (handlePointerDown 300 300 sample_entropy 20000
                     erasing_two_shapes))
   < length (shapes erasing_two_shapes))%nat.
Proof.
  apply (eraser_tap_removes_every_shape_with_the_id 300 300 sample_entropy
           20000 erasing_two_shapes (Rect.mk 0 0)
           (newShape other_entropy 300 300 one_shape_canvas)).
  - vm_compute; reflexivity.
  - vm_compute; reflexivity.
  - vm_compute; reflexivity.
Defined.

(** ** Dragging *)

Lemma shapes_longPressElapsed (h : positive) (cb : LongPress) (st : State) :
  timeouts st !! h = Some cb ->
  shapes (longPressElapsed h st)
  = map (fun shape =>
           if (Shape.id shape =? Shape.id (touchedShape cb))%string
           then Shape.withOpacity (7 # 10) shape
           else shape)
        (shapes st).
Proof.
  intros Hh. unfold longPressElapsed. rewrite Hh. plain_updates. reflexivity.
Qed.

(** X4.  A drag follows the pointer.  When the timer of a press at
    canvas point [(downX, downY)] on the shape [touched] elapses and the
    pointer then moves to client position [(cx, cy)], every shape with the
    id of [touched] sits at the position [touched] had at the press plus
    the distance the pointer has travelled since, with opacity 0.7; every
    other shape is as it was, and the list keeps its length and order. *)
Theorem drag_moves_the_shape_with_the_pointer (h : positive) (cb : LongPress)
    (cx cy : Q) (st : State) (rect : Rect.t) :
  canvasRef st = Some rect ->
  timeouts st !! h = Some cb ->
  let touched := touchedShape cb in
  let st' := handlePointerMove cx cy (longPressElapsed h st) in
  length (shapes st') = length (shapes st) /\
  forall i t,
    shapes st !! i = Some t ->
    exists t',
      shapes st' !! i = Some t' /\
      if (Shape.id t =? Shape.id touched)%string
      then shapeCore t' = shapeCore t /\
           Shape.opacity t' = 7 # 10 /\
           Shape.x t' == Shape.x touched + (cx - Rect.left rect - downX cb) /\
           Shape.y t' == Shape.y touched + (cy - Rect.top rect - downY cb)
      else t' = t.
Proof.
  intros Hc Hh. simpl.
  assert (Hsh : shapes (handlePointerMove cx cy (longPressElapsed h st))
                = map (fun shape =>
                         if (Shape.id shape =? Shape.id (touchedShape cb))%string
                         then Shape.withPosition
                                (cx - Rect.left rect
                                 - (downX cb - Shape.x (touchedShape cb)))
                                (cy - Rect.top rect
                                 - (downY cb - Shape.y (touchedShape cb)))
                                (Shape.withOpacity (7 # 10) shape)
                         else shape)
                      (shapes st)).
  { unfold handlePointerMove.
    rewrite (shapes_longPressElapsed h cb st Hh).
    unfold longPressElapsed. rewrite Hh. plain_updates. simpl.
    rewrite Hc. simpl. rewrite map_map. apply map_ext. intros s.
    destruct (Shape.id s =? Shape.id (touchedShape cb))%string eqn:Hid.
    - simpl. now rewrite Hid.
    - now rewrite Hid. }
  rewrite Hsh. split; [apply length_map|].
  intros i t Hi. rewrite list_lookup_fmap, Hi. simpl.
  eexists. split; [reflexivity|].
  destruct (Shape.id t =? Shape.id (touchedShape cb))%string.
  - simpl. repeat split; lra.
  - reflexivity.
Qed.

Lemma drag_moves_the_shape_with_the_pointer_witness :
  length (shapes (handlePointerMove 130 90 (longPressElapsed 1 pressing_canvas)))
  = length (shapes pressing_canvas) /\
  forall i t,
    shapes pressing_canvas !! i = Some t ->
    exists t',
      shapes (handlePointerMove 130 90 (longPressElapsed 1 pressing_canvas)) !! i
      = Some t' /\
      if (Shape.id t
          =? Shape.id (newShape sample_entropy 100 100 empty_canvas))%string
      then shapeCore t' = shapeCore t /\
           Shape.opacity t' = 7 # 10 /\
           Shape.x t' == 100 + (130 - 0 - 100) /\
           Shape.y t' == 100 + (90 - 0 - 100)
      else t' = t.
Proof.
  apply (drag_moves_the_shape_with_the_pointer 1
           (mkLongPress (newShape sample_entropy 100 100 empty_canvas) 100 100)
           130 90 pressing_canvas (Rect.mk 0 0)).
  - reflexivity.
  - vm_compute; reflexivity.
Defined.

(** ** What the events leave alone *)

Lemma map_core_recolour (f : Shape.t -> Shape.t) (l : list Shape.t) :
  (forall s, shapeCore (f s) = shapeCore s) ->
  map shapeCore (map f l) = map shapeCore l.
Proof.
  intros Hf. rewrite map_map. apply map_ext. exact Hf.
Qed.

Lemma core_if (b : bool) (s s' : Shape.t) :
  shapeCore s' = shapeCore s -> shapeCore (if b then s' else s) = shapeCore s.
Proof.
  now destruct b.
Qed.

Lemma only_taps_and_clear_edit_the_scene_aux (st : State) (ev : Event) :
  match ev with
  | PointerDown _ _ _ _ | ClearCanvas => True
  | _ => map shapeCore (shapes (step st ev)) = map shapeCore (shapes st)
  end.
Proof.
  destruct ev; cbn [step]; try exact I.
  - unfold handlePointerMove.
    destruct (draggedShape st); [|reflexivity].
    destruct (canvasRef st); [|reflexivity]. simpl.
    apply map_core_recolour. intros s. now apply core_if.
  - rewrite shapes_handlePointerUp.
    destruct (draggedShape st); [|reflexivity].
    apply map_core_recolour. intros s. now apply core_if.
  - destruct (timeouts st !! h) as [cb|] eqn:Hh.
    + rewrite (shapes_longPressElapsed h cb st Hh).
      apply map_core_recolour. intros s. now apply core_if.
    + unfold longPressElapsed. now rewrite Hh.
  - now destruct (progressTick_frame h now st) as (-> & _).
  - reflexivity.
  - unfold cycleShape. plain_updates.
    destruct (at_index shapeOrder _); reflexivity.
  - unfold cyclePalette. plain_updates.
    destruct (at_index paletteOrder _); reflexivity.
  - unfold increaseSize. plain_updates. reflexivity.
  - unfold decreaseSize. plain_updates. reflexivity.
  - unfold toggleEraser. plain_updates. reflexivity.
Qed.


(** X5.  Only a pointer-down and the clear button add or remove
    shapes: every other event keeps the list of shapes, in order, with
    their ids, kinds, colours, sizes and palettes. *)
Theorem only_taps_and_clear_edit_the_scene (st : State) (ev : Event) :
  match ev with
  | PointerDown _ _ _ _ | ClearCanvas => True
  | _ => map shapeCore (shapes (step st ev)) = map shapeCore (shapes st)
  end.
Proof.
  apply only_taps_and_clear_edit_the_scene_aux.
Qed.

Lemma NoDup_map_filter {A B : Type} (f : A -> B) (g : A -> bool) (l : list A) :
  List.NoDup (map f l) -> List.NoDup (map f (List.filter g l)).
Proof.
  induction l as [|a l IH]; intros Hnd; [constructor|].
  simpl in *. apply List.NoDup_cons_iff in Hnd as [Hnotin Hnd].
  destruct (g a); [|now apply IH].
  simpl. constructor; [|now apply IH].
  intros Hin. apply Hnotin.
  apply in_map_iff in Hin as (b & Hb & Hin).
  apply in_map_iff. exists b. split; [exact Hb|].
  now apply List.filter_In in Hin.
Qed.

Lemma ids_of_core (l l' : list Shape.t) :
  map shapeCore l' = map shapeCore l -> map Shape.id l' = map Shape.id l.
Proof.
  intros H.
  assert (Hid : forall k : list Shape.t,
             map Shape.id k
             = map (fun c : string * ShapeKind * string * Q * Palette.name =>
                      fst (fst (fst (fst c))))
                   (map shapeCore k)).
  { intros k. rewrite map_map. reflexivity. }
  now rewrite (Hid l), (Hid l'), H.
Qed.

(** X6.  Shape ids stay pairwise distinct: if they are distinct before
    an event, and the event, when it is a pointer-down, brings an id that
    no shape carries yet, they are distinct after it. *)
Theorem distinct_ids_are_kept (st : State) (ev : Event) :
  List.NoDup (map Shape.id (shapes st)) ->
  (forall cx cy e now,
      ev = PointerDown cx cy e now ->
      ~ In (shapeId e) (map Shape.id (shapes st))) ->
  List.NoDup (map Shape.id (shapes (step st ev))).
Proof.
  intros Hnd Hfresh.
  pose proof (only_taps_and_clear_edit_the_scene_aux st ev) as Hcore.
  destruct ev; try (rewrite (ids_of_core _ _ Hcore); exact Hnd).
  - simpl. specialize (Hfresh clientX clientY e now eq_refl).
    unfold handlePointerDown. plain_updates. simpl.
    destruct (canvasRef st); [|exact Hnd].
    destruct (findShapeAt _ _ _) as [s|].
    + destruct (eraserMode st); [|exact Hnd].
      rewrite shapes_deleteShape. simpl. now apply NoDup_map_filter.
    + rewrite shapes_createShape. simpl.
      destruct (eraserMode st); [exact Hnd|].
      rewrite map_app. simpl.
      apply List.NoDup_app.
      * exact Hnd.
      * repeat constructor. intros [].
      * intros a Ha [Hb|[]]. subst a. simpl in Ha. contradiction.
  - simpl. unfold clearCanvas.
    destruct (0 <? length (shapes st))%nat; [|exact Hnd].
    plain_updates. simpl. constructor.
Qed.

Lemma distinct_ids_are_kept_witness :
  List.NoDup
    (map Shape.id
       (shapes (step one_shape_canvas (PointerDown 300 300 other_entropy 5000)))).
Proof.
  apply (distinct_ids_are_kept one_shape_canvas
           (PointerDown 300 300 other_entropy 5000)).
  - vm_compute. repeat constructor. intros [].
  - intros cx cy e now Heq. injection Heq as _ _ <- _.
    vm_compute. intros [H|[]]. discriminate H.
Defined.

(** ** Long-press timers and progress tickers *)

Lemma longPressElapsed_not_pending (h : positive) (st : State) :
  timeouts st !! h = None -> longPressElapsed h st = st.
Proof.
  intros Hh. unfold longPressElapsed. now rewrite Hh.
Qed.

(** X7.  A release cancels the long press for good.  After a
    pointer-up, the timer whose handle the component had stored can no
    longer start a drag: when it elapses, nothing changes.  In particular
    a press on a shape (eraser off) that is released stays a tap: the
    elapsing of the timer that the press started leaves the state after
    the release as it is, with no shape dragged and the shapes as they
    were after the release. *)
Theorem release_cancels_the_long_press (cx cy : Q) (e : Entropy) (now : Q)
    (st : State) (rect : Rect.t) (s : Shape.t) (h : positive) :
  (longPressTimer st = Some h ->
   longPressElapsed h (handlePointerUp st) = handlePointerUp st) /\
  (canvasRef st = Some rect ->
   eraserMode st = false ->
   findShapeAt (shapes st) (cx - Rect.left rect) (cy - Rect.top rect)
   = Some s ->
   let released := handlePointerUp (handlePointerDown cx cy e now st) in
   longPressElapsed (nextHandle st) released = released /\
   draggedShape (longPressElapsed (nextHandle st) released) = None /\
   shapes (longPressElapsed (nextHandle st) released) = shapes released).
Proof.
  assert (Hgen : forall k st0,
             longPressTimer st0 = Some k ->
             longPressElapsed k (handlePointerUp st0) = handlePointerUp st0).
  { intros k st0 Hl. apply longPressElapsed_not_pending.
    destruct (handlePointerUp_resets st0) as (_ & _ & _ & _ & _ & ->).
    rewrite Hl. apply lookup_delete_eq. }
  split; [apply Hgen|].
  intros Hc He Hf.
  destruct (handlePointerDown_press cx cy e now st rect s Hc He Hf)
    as (_ & _ & Ht & _).
  cbn zeta. rewrite (Hgen _ _ Ht).
  split; [reflexivity|]. split; [|reflexivity].
  now destruct (handlePointerUp_resets (handlePointerDown cx cy e now st)).
Qed.

Lemma release_cancels_the_long_press_witness :
  longPressElapsed 1 (handlePointerUp pressing_canvas)
  = handlePointerUp pressing_canvas /\
  (longPressElapsed (nextHandle one_shape_canvas)
     (handlePointerUp
        (handlePointerDown 100 100 sample_entropy 10000 one_shape_canvas))
   = handlePointerUp
       (handlePointerDown 100 100 sample_entropy 10000 one_shape_canvas) /\
   draggedShape
     (longPressElapsed (nextHandle one_shape_canvas)
        (handlePointerUp
           (handlePointerDown 100 100 sample_entropy 10000 one_shape_canvas)))
   = None /\
   shapes
     (longPressElapsed (nextHandle one_shape_canvas)
        (handlePointerUp
           (handlePointerDown 100 100 sample_entropy 10000 one_shape_canvas)))
   = shapes
       (handlePointerUp
          (handlePointerDown 100 100 sample_entropy 10000 one_shape_canvas))).
Proof.
  split.
  - apply (proj1 (release_cancels_the_long_press 100 100 sample_entropy 10000
                    pressing_canvas (Rect.mk 0 0)
                    (newShape sample_entropy 100 100 empty_canvas) 1)).
    reflexivity.
  - apply (proj2 (release_cancels_the_long_press 100 100 sample_entropy 10000
                    one_shape_canvas (Rect.mk 0 0)
                    (newShape sample_entropy 100 100 empty_canvas) 1)).
    + reflexivity.
    + reflexivity.
    + reflexivity.
Defined.

(** X8.  One tick of the progress ring, started at [start] and run at
    [now >= start]: the progress written is [(now - start) / 1500] capped
    at 1, hence within [0, 1]; before 1.5 s the ticker stays registered,
    and from 1.5 s on the progress is 1 and the ticker removes itself. *)
Theorem progress_tick_is_capped_and_stops (h : positive) (start now : Q)
    (st : State) :
  intervals st !! h = Some start ->
  start <= now ->
  let st' := progressTick h now st in
  0 <= longPressProgress st' <= 1 /\
  (now - start < 1500 ->
   longPressProgress st' == (now - start) / 1500 /\
   intervals st' = intervals st) /\
  (1500 <= now - start ->
   longPressProgress st' == 1 /\ intervals st' !! h = None).
Proof.
  intros Hh Hle. unfold progressTick. rewrite Hh. simpl.
  set (p := Qmin ((now - start) / 1500) 1).
  assert (Hnn : 0 <= (now - start) / 1500).
  { apply Qle_shift_div_l; [reflexivity|]. lra. }
  assert (Hp1 : p <= 1) by apply Q.le_min_r.
  assert (Hp0 : 0 <= p) by (apply Q.min_glb; [exact Hnn | lra]).
  assert (Hprog : forall b : bool,
             longPressProgress
               (if b then clearInterval h (setLongPressProgress p st)
                else setLongPressProgress p st) = p)
    by (now intros []).
  rewrite Hprog. split; [split; assumption|]. split.
  - intros Hlt.
    assert (Hlt1 : (now - start) / 1500 < 1).
    { apply Qlt_shift_div_r; [reflexivity|]. lra. }
    assert (Hpe : p == (now - start) / 1500)
      by (apply Q.min_l; lra).
    split; [exact Hpe|].
    destruct (Qle_bool 1 p) eqn:Hb; [|reflexivity].
    apply Qle_bool_iff in Hb. lra.
  - intros Hge.
    assert (Hge1 : 1 <= (now - start) / 1500).
    { apply Qle_shift_div_l; [reflexivity|]. lra. }
    assert (Hpe : p == 1) by (apply Q.min_r; exact Hge1).
    split; [exact Hpe|].
    assert (Hb : Qle_bool 1 p = true) by (apply Qle_bool_iff; lra).
    rewrite Hb. simpl. apply lookup_delete_eq.
Qed.

Lemma progress_tick_is_capped_and_stops_witness :
  0 <= longPressProgress (progressTick 2 10750 pressing_canvas) <= 1 /\
  (10750 - 10000 < 1500 ->
   longPressProgress (progressTick 2 10750 pressing_canvas)
   == (10750 - 10000) / 1500 /\
   intervals (progressTick 2 10750 pressing_canvas)
   = intervals pressing_canvas) /\
  (1500 <= 10750 - 10000 ->
   longPressProgress (progressTick 2 10750 pressing_canvas) == 1 /\
   intervals (progressTick 2 10750 pressing_canvas) !! 2%positive = None).
Proof.
  apply (progress_tick_is_capped_and_stops 2 10000 10750 pressing_canvas).
  - vm_compute; reflexivity.
  - vm_compute. discriminate.
Defined.

(** X9.  A progress ticker ends only through its own tick: no other
    event removes a registered ticker or changes its start time.  In
    particular a pointer-up leaves the ticker of its press running. *)
Theorem ticker_ends_only_by_its_own_tick (h : positive) (start : Q)
    (st : State) (ev : Event) :
  intervals st !! h = Some start ->
  (h < nextHandle st)%positive ->
  (forall now, ev <> ProgressTick h now) ->
  intervals (step st ev) !! h = Some start.
Proof.
  intros Hh Hlt Hev. destruct ev; cbn [step].
  - unfold handlePointerDown. plain_updates. simpl.
    destruct (canvasRef st); [|exact Hh].
    destruct (findShapeAt _ _ _) as [s|].
    + destruct (eraserMode st).
      * unfold deleteShape. plain_updates. exact Hh.
      * simpl. rewrite lookup_insert_ne; [exact Hh|]. lia.
    + unfold createShape. simpl. destruct (eraserMode st); [exact Hh|].
      unfold createSpreadingWave. plain_updates. exact Hh.
  - unfold handlePointerMove.
    destruct (draggedShape st); [|exact Hh].
    destruct (canvasRef st); exact Hh.
  - unfold handlePointerUp.
    destruct (draggedShape st); destruct (longPressTimer st);
      plain_updates; exact Hh.
  - unfold longPressElapsed.
    destruct (timeouts st !! h0); [|exact Hh].
    plain_updates. exact Hh.
  - assert (Hne : h0 <> h) by (intros ->; now apply (Hev now)).
    unfold progressTick.
    destruct (intervals st !! h0) as [start0|]; [|exact Hh]. simpl.
    destruct (Qle_bool 1 _); [|exact Hh].
    simpl. now rewrite lookup_delete_ne.
  - exact Hh.
  - unfold cycleShape. plain_updates.
    destruct (at_index shapeOrder _); exact Hh.
  - unfold cyclePalette. plain_updates.
    destruct (at_index paletteOrder _); exact Hh.
  - unfold increaseSize. plain_updates. exact Hh.
  - unfold decreaseSize. plain_updates. exact Hh.
  - unfold toggleEraser. plain_updates. exact Hh.
  - unfold clearCanvas.
    destruct (0 <? length (shapes st))%nat; [|exact Hh].
    plain_updates. exact Hh.
Qed.

Lemma ticker_ends_only_by_its_own_tick_witness :
  intervals (step pressing_canvas PointerUp) !! 2%positive = Some 10000.
Proof.
  apply (ticker_ends_only_by_its_own_tick 2 10000 pressing_canvas PointerUp).
  - vm_compute; reflexivity.
  - vm_compute; reflexivity.
  - intros now H. discriminate H.
Defined.

(** ** Sound *)

Ltac silence Ha :=
  unfold playNote, initAudioContext, toast, emit; simpl;
  rewrite ?Ha; simpl.

Ltac only_toasts :=
  split; [simpl; first [reflexivity | assumption]|];
  split; [reflexivity|];
  first [ exists []; simpl; now rewrite app_nil_r
        | eexists [_]; reflexivity ].

(** Without an audio context, and with no way to get one, an event adds
    nothing but toasts to the log. *)
Lemma silent_step (st : State) (ev : Event) :
  audioContextRef st = false ->
  audioSupported st = false \/ is_pointer_down ev = false ->
  audioContextRef (step st ev) = false /\
  audioSupported (step st ev) = audioSupported st /\
  exists titles, effects (step st ev) = effects st ++ map Toast titles.
Proof.
  intros Ha Hor. destruct ev; cbn [step].
  - destruct Hor as [Hs|Hp]; [|discriminate Hp].
    unfold handlePointerDown.
    assert (Hinit : initAudioContext st = st)
      by (unfold initAudioContext; now rewrite Ha, Hs).
    rewrite Hinit.
    destruct (canvasRef st); [|rewrite Ha; only_toasts].
    destruct (findShapeAt _ _ _) as [s|].
    + destruct (eraserMode st).
      * unfold deleteShape. silence Ha. only_toasts.
      * simpl. rewrite Ha. only_toasts.
    + unfold createShape. destruct (eraserMode st); [rewrite Ha; only_toasts|].
      unfold createSpreadingWave, playNote, initAudioContext.
      repeat first
        [ rewrite Ha | rewrite Hs
        | progress cbn [audioContextRef audioSupported setParticles setShapes] ].
      only_toasts.
  - unfold handlePointerMove.
    destruct (draggedShape st); [|rewrite Ha; only_toasts].
    destruct (canvasRef st); simpl; rewrite Ha; only_toasts.
  - unfold handlePointerUp.
    destruct (draggedShape st); destruct (longPressTimer st);
      unfold clearTimeout; silence Ha; only_toasts.
  - unfold longPressElapsed.
    destruct (timeouts st !! h); [|rewrite Ha; only_toasts].
    silence Ha. only_toasts.
  - unfold progressTick.
    destruct (intervals st !! h) as [start|]; [|rewrite Ha; only_toasts].
    simpl. destruct (Qle_bool 1 _); simpl; rewrite Ha; only_toasts.
  - simpl. rewrite Ha. only_toasts.
  - unfold cycleShape.
    destruct (at_index shapeOrder _); silence Ha; only_toasts.
  - unfold cyclePalette.
    destruct (at_index paletteOrder _); silence Ha; only_toasts.
  - unfold increaseSize. silence Ha. only_toasts.
  - unfold decreaseSize. silence Ha. only_toasts.
  - unfold toggleEraser. silence Ha. only_toasts.
  - unfold clearCanvas.
    destruct (0 <? length (shapes st))%nat; [|rewrite Ha; only_toasts].
    silence Ha. only_toasts.
Qed.

Lemma silent_run (evs : list Event) (st : State) :
  audioContextRef st = false ->
  audioSupported st = false \/ forallb (fun ev => negb (is_pointer_down ev)) evs = true ->
  (forall n, ~ In (Sound n) (effects st)) ->
  audioContextRef (run st evs) = false /\
  forall n, ~ In (Sound n) (effects (run st evs)).
Proof.
  revert st. induction evs as [|ev evs IH]; intros st Ha Hor Hlog; [easy|].
  change (run st (ev :: evs)) with (run (step st ev) evs).
  assert (Hev : audioSupported st = false \/ is_pointer_down ev = false).
  { destruct Hor as [Hs|Hp]; [now left|right].
    simpl in Hp. apply andb_true_iff in Hp as [Hp _].
    now apply negb_true_iff in Hp. }
  destruct (silent_step st ev Ha Hev) as (Ha' & Hs' & titles & Heff).
  apply IH.
  - exact Ha'.
  - rewrite Hs'. destruct Hor as [Hs|Hp]; [now left|right].
    simpl in Hp. now apply andb_true_iff in Hp as [_ Hp].
  - intros n Hin. rewrite Heff in Hin. apply in_app_or in Hin as [Hin|Hin].
    + exact (Hlog n Hin).
    + apply in_map_iff in Hin as (title & Ht & _). discriminate Ht.
Qed.

(** X10.  In a browser without audio the component stays silent for the
    whole session: whatever the events, no audio context exists and no
    note is played. *)
Theorem no_sound_without_audio_support (rect : Rect.t) (evs : list Event) :
  audioContextRef (run (initialState rect false) evs) = false /\
  forall n, ~ In (Sound n) (effects (run (initialState rect false) evs)).
Proof.
  apply silent_run.
  - reflexivity.
  - now left.
  - intros n [].
Qed.

(** X11.  The audio context is created by the first pointer-down on the
    canvas and by nothing else: as long as no pointer-down has occurred,
    the buttons and timers play no note, even where audio is available. *)
Theorem no_sound_before_the_first_pointer_down (rect : Rect.t) (audio : bool)
    (evs : list Event) :
  forallb (fun ev => negb (is_pointer_down ev)) evs = true ->
  audioContextRef (run (initialState rect audio) evs) = false /\
  forall n, ~ In (Sound n) (effects (run (initialState rect audio) evs)).
Proof.
  intros Hevs. apply silent_run.
  - reflexivity.
  - now right.
  - intros n [].
Qed.

Lemma no_sound_before_the_first_pointer_down_witness :
  audioContextRef
    (run (initialState (Rect.mk 0 0) true)
       [CycleShape; IncreaseSize; ToggleEraser; ClearCanvas; PointerUp])
  = false /\
  forall n,
    ~ In (Sound n)
        (effects
           (run (initialState (Rect.mk 0 0) true)
              [CycleShape; IncreaseSize; ToggleEraser; ClearCanvas; PointerUp])).
Proof.
  apply (no_sound_before_the_first_pointer_down (Rect.mk 0 0) true
           [CycleShape; IncreaseSize; ToggleEraser; ClearCanvas; PointerUp]).
  reflexivity.
Defined.

(** ** Waves *)

(** X12.  A tap that creates a shape creates exactly one wave with it:
    the particle list grows by one particle, placed at the new shape's
    centre, with the new shape's colour, with life and maximal life 60, no
    velocity, and the current size (not the shape's randomised size). *)
Theorem tap_creates_one_wave (cx cy : Q) (e : Entropy) (now : Q)
    (st : State) (rect : Rect.t) :
  canvasRef st = Some rect ->
  eraserMode st = false ->
  findShapeAt (shapes st) (cx - Rect.left rect) (cy - Rect.top rect) = None ->
  let shape := newShape e (cx - Rect.left rect) (cy - Rect.top rect) st in
  particles (handlePointerDown cx cy e now st)
  = particles st
    ++ [Particle.mk (waveId e) (Shape.x shape) (Shape.y shape) 0 0 60 60
          (Shape.color shape) (currentSize st)].
Proof.
  intros Hc He Hf. unfold handlePointerDown. plain_updates. simpl.
  rewrite Hc, Hf. unfold createShape. simpl. rewrite He.
  unfold createSpreadingWave. plain_updates. reflexivity.
Qed.

Lemma tap_creates_one_wave_witness :
  particles (handlePointerDown 300 300 other_entropy 5000 one_shape_canvas)
  = particles one_shape_canvas
    ++ [Particle.mk (waveId other_entropy)
          (Shape.x (newShape other_entropy (300 - 0) (300 - 0) one_shape_canvas))
          (Shape.y (newShape other_entropy (300 - 0) (300 - 0) one_shape_canvas))
          0 0 60 60
          (Shape.color
             (newShape other_entropy (300 - 0) (300 - 0) one_shape_canvas))
          (currentSize one_shape_canvas)].
Proof.
  apply (tap_creates_one_wave 300 300 other_entropy 5000 one_shape_canvas
           (Rect.mk 0 0)).
  - reflexivity.
  - reflexivity.
  - vm_compute; reflexivity.
Defined.

Lemma ageParticles_bound (ps : list Particle.t) (b : Q) :
  List.Forall (fun p => Particle.life p <= b) ps ->
  List.Forall (fun p => Particle.life p <= b - 1) (ageParticles ps).
Proof.
  intros H. apply List.Forall_forall. intros q Hq.
  apply In_ageParticles in Hq as (p & Hp & -> & _).
  rewrite List.Forall_forall in H. specialize (H p Hp). simpl. lra.
Qed.

Lemma ageParticles_last_tick (ps : list Particle.t) :
  List.Forall (fun p => Particle.life p <= 1) ps -> ageParticles ps = [].
Proof.
  intros H. destruct (ageParticles ps) as [|q l] eqn:Hq; [reflexivity|].
  assert (Hin : In q (ageParticles ps)) by (rewrite Hq; now left).
  apply In_ageParticles in Hin as (p & Hp & _ & Hlife).
  rewrite List.Forall_forall in H. specialize (H p Hp). lra.
Qed.

Lemma iter_ageParticles_bound (k : nat) (ps : list Particle.t) (b : Q) :
  List.Forall (fun p => Particle.life p <= b) ps ->
  List.Forall (fun p => Particle.life p <= b - inject_Z (Z.of_nat k))
    (Nat.iter k ageParticles ps).
Proof.
  intros H. induction k as [|k IH].
  - change (inject_Z (Z.of_nat 0)) with 0.
    eapply List.Forall_impl; [|exact H]. intros p Hp.
    cbn beta in *. lra.
  - rewrite Nat.iter_succ.
    apply ageParticles_bound in IH.
    eapply List.Forall_impl; [|exact IH]. intros p Hp. cbn beta in *.
    rewrite Nat2Z.inj_succ. unfold Z.succ. rewrite inject_Z_plus.
    change (inject_Z 1) with 1. lra.
Qed.

(** X13.  Particles always die out.  One tick never makes the
    collection longer, and a collection whose lives are at most [n + 1] is
    empty after [n + 1] ticks; the waves that [createShape] makes are gone
    after 60 ticks whatever else is in the collection. *)
Theorem particles_die_out (n : nat) (ps : list Particle.t) :
  (length (ageParticles ps) <= length ps)%nat /\
  (List.Forall (fun p => Particle.life p <= inject_Z (Z.of_nat (S n))) ps ->
   Nat.iter (S n) ageParticles ps = []).
Proof.
  split.
  - unfold ageParticles.
    pose proof (List.filter_length_le
                  (fun particle => gtb (Particle.life particle) 0)
                  (map ageParticle ps)) as Hle.
    now rewrite length_map in Hle.
  - intros H. rewrite Nat.iter_succ. apply ageParticles_last_tick.
    pose proof (iter_ageParticles_bound n ps _ H) as Hn.
    eapply List.Forall_impl; [|exact Hn]. intros p Hp. cbn beta in Hp.
    rewrite Nat2Z.inj_succ in Hp. unfold Z.succ in Hp.
    rewrite inject_Z_plus in Hp. change (inject_Z 1) with 1 in Hp. lra.
Qed.

Lemma particles_die_out_witness :
  Nat.iter 60 ageParticles (particles one_shape_canvas) = [].
Proof.
  apply (proj2 (particles_die_out 59 (particles one_shape_canvas))).
  vm_compute. repeat constructor. discriminate.
Defined.

(** ** Hit area and drawn outline *)

Lemma hits_centre (x y : Q) (s : Shape.t) :
  Shape.x s == x -> Shape.y s == y -> 0 <= Shape.size s ->
  hits x y s = true.
Proof.
  intros Hx Hy Hs. unfold hits, sqrt_le, distance2.
  apply andb_true_iff. split; apply Qle_bool_iff.
  - apply Qle_shift_div_l; [reflexivity|]. lra.
  - change ((x - Shape.x s) * (x - Shape.x s)
            + (y - Shape.y s) * (y - Shape.y s)
            <= Shape.size s / 2 * (Shape.size s / 2)).
    pose proof (Qsquare_nonneg (Shape.size s / 2)) as Hsq.
    change (0 <= Shape.size s / 2 * (Shape.size s / 2)) in Hsq.
    setoid_replace (x - Shape.x s) with 0 using relation Qeq by lra.
    setoid_replace (y - Shape.y s) with 0 using relation Qeq by lra.
    lra.
Qed.

(** X15.  A shape can be grabbed where it was placed.  While the current
    size is at least 10 (it never drops below 20), a tap that creates a
    shape makes [findShapeAt] return that shape for the same point: it is
    the topmost shape there. *)
Theorem new_shape_is_found_where_it_was_placed (cx cy : Q) (e : Entropy)
    (now : Q) (st : State) (rect : Rect.t) :
  canvasRef st = Some rect ->
  eraserMode st = false ->
  10 <= currentSize st ->
  is_random (randomSize e) ->
  findShapeAt (shapes st) (cx - Rect.left rect) (cy - Rect.top rect) = None ->
  findShapeAt (shapes (handlePointerDown cx cy e now st))
    (cx - Rect.left rect) (cy - Rect.top rect)
  = Some (newShape e (cx - Rect.left rect) (cy - Rect.top rect) st).
Proof.
  intros Hc He Hsz [Hr0 Hr1] Hf.
  rewrite (shapes_handlePointerDown_empty cx cy e now st rect Hc Hf), He.
  rewrite findShapeAt_find, rev_app_distr. simpl.
  rewrite hits_centre; [reflexivity | reflexivity | reflexivity |].
  simpl. lra.
Qed.

Lemma new_shape_is_found_where_it_was_placed_witness :
  findShapeAt (shapes (handlePointerDown 300 300 other_entropy 5000
                          one_shape_canvas))
    (300 - 0) (300 - 0)
  = Some (newShape other_entropy (300 - 0) (300 - 0) one_shape_canvas).
Proof.
  apply (new_shape_is_found_where_it_was_placed 300 300 other_entropy 5000
           one_shape_canvas (Rect.mk 0 0)).
  - reflexivity.
  - reflexivity.
  - vm_compute. discriminate.
  - split; vm_compute; congruence.
  - vm_compute; reflexivity.
Defined.



(** ** Saving *)

(** X19.  Saving never touches the scene and always names the file.
    With the canvas mounted, [saveArtwork] leaves shapes and particles as
    they are and shows exactly one toast; when the export succeeds the
    downloaded file is [name.png] where [name] is the user's answer, or
    [my-artwork] when the dialog was cancelled or left empty; when the
    export fails nothing is downloaded. *)
Theorem saveArtwork_keeps_the_scene_and_names_the_file
    (answer : option string) (exportOk : bool) (st : State) (rect : Rect.t) :
  canvasRef st = Some rect ->
  let st' := fst (saveArtwork answer exportOk st) in
  let file := snd (saveArtwork answer exportOk st) in
  shapes st' = shapes st /\
  particles st' = particles st /\
  effects st'
  = effects st
    ++ [Toast (if exportOk then "Artwork Saved!" else "Save Failed")] /\
  (exportOk = false -> file = None) /\
  (exportOk = true ->
   exists name,
     file = Some (name ++ ".png")%string /\
     name <> ""%string /\
     match answer with
     | Some s => if (s =? "")%string then name = "my-artwork"%string else name = s
     | None => name = "my-artwork"%string
     end).
Proof.
  intros Hc. unfold saveArtwork. rewrite Hc.
  destruct exportOk; cbn [fst snd]; unfold toast, emit; simpl.
  - repeat split; try discriminate.
    intros _. destruct answer as [s|].
    + destruct (String.eqb_spec s "") as [->|Hne].
      * exists "my-artwork"%string. repeat split. discriminate.
      * exists s. repeat split. exact Hne.
    + exists "my-artwork"%string. repeat split. discriminate.
  - repeat split; try discriminate.
Qed.

Lemma saveArtwork_keeps_the_scene_and_names_the_file_witness :
  shapes (fst (saveArtwork (Some ""%string) true one_shape_canvas))
  = shapes one_shape_canvas /\
  particles (fst (saveArtwork (Some ""%string) true one_shape_canvas))
  = particles one_shape_canvas /\
  effects (fst (saveArtwork (Some ""%string) true one_shape_canvas))
  = effects one_shape_canvas ++ [Toast "Artwork Saved!"] /\
  (true = false ->
   snd (saveArtwork (Some ""%string) true one_shape_canvas) = None) /\
  (true = true ->
   exists name,
     snd (saveArtwork (Some ""%string) true one_shape_canvas)
     = Some (name ++ ".png")%string /\
     name <> ""%string /\
     name = "my-artwork"%string).
Proof.
  apply (saveArtwork_keeps_the_scene_and_names_the_file (Some ""%string) true
           one_shape_canvas (Rect.mk 0 0)).
  reflexivity.
Defined.

(** ** Notes *)

(** X20.  [playNote] always finds a frequency in the table of its note
    type: for every value of [Math.random()] the index is in range, so the
    frequency is never [undefined]; creation notes lie between C4 and E5,
    deletion notes between A3 and A4. *)
Theorem noteFrequency_is_in_the_table (noteType : Note.t) (r : Q) :
  is_random r ->
  exists f,
    noteFrequency noteType r = Some f /\
    In f (notesFor noteType) /\
    match noteType with
    | Note.create => 26163 # 100 <= f <= 65925 # 100
    | Note.delete => 220 <= f <= 440
    | Note.action => 220 <= f <= 65925 # 100
    end.
Proof.
  intros Hr. unfold noteFrequency.
  destruct (at_index_random_In (notesFor noteType) r Hr) as (f & Hf & Hin).
  { now destruct noteType. }
  exists f. split; [exact Hf|]. split; [exact Hin|].
  destruct noteType; simpl in Hin;
    repeat (destruct Hin as [<-|Hin]; [split; vm_compute; discriminate|]);
    destruct Hin.
Qed.

Lemma noteFrequency_is_in_the_table_witness :
  exists f,
    noteFrequency Note.action (3 # 4) = Some f /\
    In f (notesFor Note.action) /\
    220 <= f <= 65925 # 100.
Proof.
  apply (noteFrequency_is_in_the_table Note.action (3 # 4)).
  split; vm_compute; congruence.
Defined.

(** ** The size buttons *)

Lemma inject_Z_plus_20 (a : Z) : inject_Z a + 20 = inject_Z (a + 20).
Proof.
  unfold inject_Z, Qplus. simpl. f_equal. lia.
Qed.

Lemma inject_Z_minus_20 (a : Z) : inject_Z a - 20 = inject_Z (a - 20).
Proof.
  unfold inject_Z, Qminus, Qplus, Qopp. simpl. f_equal. lia.
Qed.

Lemma size_step_is_a_multiple (st : State) (ev : Event) :
  (exists k, (1 <= k <= 10)%Z /\ currentSize st = inject_Z (20 * k)) ->
  exists k, (1 <= k <= 10)%Z /\ currentSize (step st ev) = inject_Z (20 * k).
Proof.
  intros (k & Hk & Hs). rewrite currentSize_step.
  destruct ev; try (exists k; now split).
  - rewrite Hs, inject_Z_plus_20. unfold Qmin, GenericMinMax.gmin.
    destruct (inject_Z (20 * k + 20) ?= 200) eqn:Hcmp.
    + apply Qeq_alt in Hcmp. exists (k + 1)%Z. split.
      * unfold Qeq in Hcmp. simpl in Hcmp. lia.
      * f_equal. lia.
    + apply Qlt_alt in Hcmp. exists (k + 1)%Z. split.
      * unfold Qlt in Hcmp. simpl in Hcmp. lia.
      * f_equal. lia.
    + exists 10%Z. split; [lia | reflexivity].
  - rewrite Hs, inject_Z_minus_20. unfold Qmax, GenericMinMax.gmax.
    destruct (inject_Z (20 * k - 20) ?= 20) eqn:Hcmp.
    + apply Qeq_alt in Hcmp. exists (k - 1)%Z. split.
      * unfold Qeq in Hcmp. simpl in Hcmp. lia.
      * f_equal. lia.
    + exists 1%Z. split; [lia | reflexivity].
    + apply Qgt_alt in Hcmp. exists (k - 1)%Z. split.
      * unfold Qlt in Hcmp. simpl in Hcmp. lia.
      * f_equal. lia.
Qed.

(** X21.  The size shown in the status panel is always one of the ten
    values 20, 40, ..., 200: from the initial state, after any sequence of
    events, [currentSize] is [20 * k] for some [k] between 1 and 10. *)
Theorem current_size_is_a_multiple_of_20 (rect : Rect.t) (audio : bool)
    (evs : list Event) :
  exists k,
    (1 <= k <= 10)%Z /\
    currentSize (run (initialState rect audio) evs) = inject_Z (20 * k).
Proof.
  assert (Hrun : forall evs st,
             (exists k, (1 <= k <= 10)%Z /\ currentSize st = inject_Z (20 * k)) ->
             exists k,
               (1 <= k <= 10)%Z /\ currentSize (run st evs) = inject_Z (20 * k)).
  { clear evs. induction evs as [|ev evs IH]; intros st H; [exact H|].
    apply (IH (step st ev)). now apply size_step_is_a_multiple. }
  apply Hrun. exists 4%Z. split; [lia | reflexivity].
Qed.

Lemma increase_progress (n : nat) (st : State) :
  currentSize st <= 200 ->
  let s := currentSize (Nat.iter n increaseSize st) in
  s <= 200 /\
  (currentSize st + 20 * inject_Z (Z.of_nat n) <= s \/ 200 <= s).
Proof.
  intros Hs. induction n as [|n IH]; cbn zeta.
  - change (inject_Z (Z.of_nat 0)) with 0.
    change (Nat.iter 0 increaseSize st) with st. split; [exact Hs | left; lra].
  - rewrite Nat.iter_succ, currentSize_increaseSize.
    cbn zeta in IH. destruct IH as [Hle Hor].
    set (s := currentSize (Nat.iter n increaseSize st)) in *.
    rewrite Nat2Z.inj_succ. unfold Z.succ. rewrite inject_Z_plus.
    change (inject_Z 1) with 1.
    split; [apply Q.le_min_r|].
    destruct (Q.min_spec (s + 20) 200) as [[Hlt ->]|[Hge ->]].
    + destruct Hor as [Hor|Hor]; [left; lra | lra].
    + right. lra.
Qed.

Lemma decrease_progress (n : nat) (st : State) :
  20 <= currentSize st ->
  let s := currentSize (Nat.iter n decreaseSize st) in
  20 <= s /\
  (s <= currentSize st - 20 * inject_Z (Z.of_nat n) \/ s <= 20).
Proof.
  intros Hs. induction n as [|n IH]; cbn zeta.
  - change (inject_Z (Z.of_nat 0)) with 0.
    change (Nat.iter 0 decreaseSize st) with st. split; [exact Hs | left; lra].
  - rewrite Nat.iter_succ, currentSize_decreaseSize.
    cbn zeta in IH. destruct IH as [Hle Hor].
    set (s := currentSize (Nat.iter n decreaseSize st)) in *.
    rewrite Nat2Z.inj_succ. unfold Z.succ. rewrite inject_Z_plus.
    change (inject_Z 1) with 1.
    split; [apply Q.le_max_r|].
    destruct (Q.max_spec (s - 20) 20) as [[Hlt ->]|[Hge ->]].
    + right. lra.
    + destruct Hor as [Hor|Hor]; [left; lra | lra].
Qed.

(** X22.  The size buttons saturate: from any size within [20, 200],
    nine presses of the plus button give size 200 and nine presses of the
    minus button give size 20, and further presses keep it there. *)
Theorem size_buttons_saturate (n : nat) (st : State) :
  20 <= currentSize st <= 200 ->
  (9 <= n)%nat ->
  currentSize (Nat.iter n increaseSize st) == 200 /\
  currentSize (Nat.iter n decreaseSize st) == 20.
Proof.
  intros [Hlo Hhi] Hn.
  assert (HnQ : 9 <= inject_Z (Z.of_nat n)).
  { change 9 with (inject_Z 9). rewrite <- Zle_Qle. lia. }
  destruct (increase_progress n st Hhi) as [Hup Hupor].
  destruct (decrease_progress n st Hlo) as [Hdown Hdownor].
  split.
  - destruct Hupor; lra.
  - destruct Hdownor; lra.
Qed.

Lemma size_buttons_saturate_witness :
  currentSize (Nat.iter 9 increaseSize one_shape_canvas) == 200 /\
  currentSize (Nat.iter 9 decreaseSize one_shape_canvas) == 20.
Proof.
  apply (size_buttons_saturate 9 one_shape_canvas).
  - split; vm_compute; discriminate.
  - lia.
Defined.

(** ** Releases *)

Lemma handlePointerUp_when_idle (st : State) :
  draggedShape st = None ->
  dragOffset st = mkPoint 0 0 ->
  showLongPressIndicator st = false ->
  longPressProgress st = 0 ->
  longPressTimer st = None ->
  handlePointerUp st = st.
Proof.
  intros Hd Ho Hi Hp Ht. unfold handlePointerUp. rewrite Hd, Ht.
  destruct st; cbn in *. subst. reflexivity.
Qed.

(** X23.  A second pointer-up in a row changes nothing: the handler is
    idempotent, so a release that the canvas sees twice is harmless. *)
Theorem handlePointerUp_is_idempotent (st : State) :
  handlePointerUp (handlePointerUp st) = handlePointerUp st.
Proof.
  destruct (handlePointerUp_resets st) as (Hd & Ho & Hi & Hp & Ht & _).
  now apply handlePointerUp_when_idle.
Qed.

Lemma single_pointer_release_resets_witness :
  draggedShape
    (handlePointerUp
       (run (initialState (Rect.mk 0 0) true)
          [PointerDown 100 100 sample_entropy 0; PointerUp;
           PointerDown 100 100 sample_entropy 10000; LongPressElapsed 1;
           PointerMove 120 130]))
  = None /\
  dragOffset
    (handlePointerUp
       (run (initialState (Rect.mk 0 0) true)
          [PointerDown 100 100 sample_entropy 0; PointerUp;
           PointerDown 100 100 sample_entropy 10000; LongPressElapsed 1;
           PointerMove 120 130]))
  = mkPoint 0 0 /\
  showLongPressIndicator
    (handlePointerUp
       (run (initialState (Rect.mk 0 0) true)
          [PointerDown 100 100 sample_entropy 0; PointerUp;
           PointerDown 100 100 sample_entropy 10000; LongPressElapsed 1;
           PointerMove 120 130]))
  = false /\
  longPressProgress
    (handlePointerUp
       (run (initialState (Rect.mk 0 0) true)
          [PointerDown 100 100 sample_entropy 0; PointerUp;
           PointerDown 100 100 sample_entropy 10000; LongPressElapsed 1;
           PointerMove 120 130]))
  = 0 /\
  longPressTimer
    (handlePointerUp
       (run (initialState (Rect.mk 0 0) true)
          [PointerDown 100 100 sample_entropy 0; PointerUp;
           PointerDown 100 100 sample_entropy 10000; LongPressElapsed 1;
           PointerMove 120 130]))
  = None /\
  timeouts
    (handlePointerUp
       (run (initialState (Rect.mk 0 0) true)
          [PointerDown 100 100 sample_entropy 0; PointerUp;
           PointerDown 100 100 sample_entropy 10000; LongPressElapsed 1;
           PointerMove 120 130]))
  = ∅.
Proof.
  apply (single_pointer_release_resets (Rect.mk 0 0) true
           [PointerDown 100 100 sample_entropy 0; PointerUp;
            PointerDown 100 100 sample_entropy 10000; LongPressElapsed 1;
            PointerMove 120 130]).
  reflexivity.
Defined.

(** ** [findShapeAt] in double precision *)

Section DoublePrecision.

Import PrimFloat.
Set Warnings "-inexact-float".

Lemma Double_findShapeAt_loop_find (px py : float)
    (front back : list Double.Shape.t) :
  Double.findShapeAt_loop (front ++ back) px py (length front)
  = List.find (Double.hits px py) (rev front).
Proof.
  revert back. induction front as [|s front IH] using rev_ind; intros back.
  - reflexivity.
  - rewrite length_app, Nat.add_1_r, rev_app_distr. simpl.
    rewrite <- app_assoc. simpl.
    rewrite list_lookup_middle by reflexivity.
    destruct (Double.hits px py s); [reflexivity|].
    apply IH.
Qed.

Lemma Double_findShapeAt_find (shapes : list Double.Shape.t) (px py : float) :
  Double.findShapeAt shapes px py
  = List.find (Double.hits px py) (rev shapes).
Proof.
  unfold Double.findShapeAt.
  rewrite <- (app_nil_r shapes) at 1.
  apply Double_findShapeAt_loop_find.
Qed.

(** C3, as amended.  [findShapeAt] returns the last shape of the list
    that passes the test of the code as the machine computes it: the
    double-precision value of [Math.sqrt((x - shape.x) ** 2 + (y -
    shape.y) ** 2)] is at most the double-precision value of
    [shape.size / 2].  The list splits around the result into the shapes
    below it and the shapes above it, none of which passes the test; it is
    the first match of a scan in reverse list order; and the result is
    [None] (null) exactly when no shape of the list passes the test. *)
Theorem findShapeAt_topmost_computed_hit (shapes : list Double.Shape.t)
    (px py : float) :
  Double.findShapeAt shapes px py
  = List.find (Double.hits px py) (rev shapes) /\
  (forall s,
      Double.hits px py s
      = (Double.distance px py s <=? Double.Shape.size s / 2)%float) /\
  match Double.findShapeAt shapes px py with
  | Some s =>
      exists below above,
        shapes = below ++ s :: above /\
        Double.hits px py s = true /\
        List.Forall (fun t => Double.hits px py t = false) above
  | None => List.Forall (fun t => Double.hits px py t = false) shapes
  end.
Proof.
  split; [apply Double_findShapeAt_find|].
  split; [reflexivity|].
  rewrite Double_findShapeAt_find.
  apply (find_rev_split (Double.hits px py) shapes).
Qed.

(** C3 as stated fails at the rim of a shape.  For the circle of size 80
    at (100, 100) and the point (140, 100 + 2^-24), whose exact distance
    from the centre exceeds 40, the rounded square root is exactly 40:
    [findShapeAt] returns the shape although its centre is not within
    Euclidean distance [size / 2] of the point (in exact arithmetic the
    search finds nothing). *)
Lemma findShapeAt_hits_just_outside_the_radius :
  Double.findShapeAt [Double.rim_shape] Double.rim_x Double.rim_y
  = Some Double.rim_shape /\
  Double.distance Double.rim_x Double.rim_y Double.rim_shape = 40%float /\
  Double.exactly Double.rim_x 140 /\
  Double.exactly Double.rim_y (100 + (1 # 16777216)) /\
  Double.exactly (Double.Shape.x Double.rim_shape) 100 /\
  Double.exactly (Double.Shape.y Double.rim_shape) 100 /\
  Double.exactly (Double.Shape.size Double.rim_shape) 80 /\
  ~ within_radius 140 (100 + (1 # 16777216))
      (Shape.mk "1700000000000.25" 100 100 circle "#E6B3FF" 80
         Palette.pastels (9 # 10)) /\
  findShapeAt
    [Shape.mk "1700000000000.25" 100 100 circle "#E6B3FF" 80
       Palette.pastels (9 # 10)]
    140 (100 + (1 # 16777216))
  = None.
Proof.
  repeat apply conj; try (vm_compute; reflexivity).
  apply hits_false_not_within. vm_compute; reflexivity.
Qed.

(** ** The wave in double precision *)

Lemma Double_ageParticle_fields (p : Double.Particle.t) :
  Double.Particle.life (Double.ageParticle p)
  = (Double.Particle.life p - 1)%float /\
  Double.Particle.maxLife (Double.ageParticle p) = Double.Particle.maxLife p /\
  Double.Particle.size (Double.ageParticle p) = Double.Particle.size p.
Proof.
  repeat split.
Qed.

(** What the frame reads of a particle: its life, maximal life and
    size. *)
Lemma Double_drawing_depends_on (p q : Double.Particle.t) :
  Double.Particle.life p = Double.Particle.life q ->
  Double.Particle.maxLife p = Double.Particle.maxLife q ->
  Double.Particle.size p = Double.Particle.size q ->
  Double.waveRadius p = Double.waveRadius q /\
  Double.waveAlpha p = Double.waveAlpha q /\
  Double.stopAlpha 255 p = Double.stopAlpha 255 q.
Proof.
  intros Hl Hm Hs.
  unfold Double.stopAlpha, Double.waveRadius, Double.waveAlpha,
    Double.particleAlpha.
  now rewrite Hl, Hm, Hs.
Qed.

Lemma Double_wave_fields (wid : string) (x y : float) (color : string)
    (size : float) (k : nat) :
  let p := Nat.iter k Double.ageParticle (Double.wave wid x y color size) in
  let q := Double.wave_after size k in
  Double.Particle.life p = Double.Particle.life q /\
  Double.Particle.maxLife p = Double.Particle.maxLife q /\
  Double.Particle.size p = Double.Particle.size q.
Proof.
  unfold Double.wave_after. induction k as [|k IH]; [easy|].
  rewrite !Nat.iter_succ. cbn zeta in *.
  destruct IH as (Hl & Hm & Hs).
  destruct (Double_ageParticle_fields
              (Nat.iter k Double.ageParticle (Double.wave wid x y color size)))
    as (-> & -> & ->).
  destruct (Double_ageParticle_fields
              (Nat.iter k Double.ageParticle
                 (Double.wave "wave" 0 0 "#FFB3E6" size)))
    as (-> & -> & ->).
  now rewrite Hl, Hm, Hs.
Qed.

Lemma Double_waves_drawn_well :
  forallb (fun size => forallb (Double.wave_drawn_well size) (seq 0 60))
    Double.currentSizes
  = true.
Proof.
  vm_compute. reflexivity.
Qed.

(** X14.  How the animation frame draws the waves the component
    creates, in double precision.  For a wave whose size is one of the ten
    current sizes, after [k < 60] ageing ticks (life [60 - k]): its radius
    lies between the size and the size plus 150, its alpha is positive and
    at most 0.6, the number behind the first gradient stop is an integer
    between 0 and 153, and the next tick makes the radius larger and the
    alpha smaller. *)
Theorem wave_expands_and_fades (wid : string) (x y : float) (color : string)
    (size : float) (k : nat) :
  In size Double.currentSizes ->
  (k < 60)%nat ->
  let p := Nat.iter k Double.ageParticle (Double.wave wid x y color size) in
  (size <=? Double.waveRadius p)%float = true /\
  (Double.waveRadius p <? size + 150)%float = true /\
  (0 <? Double.waveAlpha p)%float = true /\
  (Double.waveAlpha p <=? 0.6)%float = true /\
  (exists b, Double.stopAlpha 255 p = Some b /\ (0 <= b <= 153)%Z) /\
  (Double.waveRadius p <? Double.waveRadius (Double.ageParticle p))%float
  = true /\
  (Double.waveAlpha (Double.ageParticle p) <? Double.waveAlpha p)%float
  = true.
Proof.
  intros Hsize Hk.
  pose proof Double_waves_drawn_well as Hall.
  rewrite forallb_forall in Hall. specialize (Hall size Hsize).
  rewrite forallb_forall in Hall.
  assert (Hin : In k (seq 0 60)) by (apply in_seq; lia).
  specialize (Hall k Hin).
  destruct (Double_wave_fields wid x y color size k) as (Hl & Hm & Hs).
  cbn zeta in *.
  set (p := Nat.iter k Double.ageParticle (Double.wave wid x y color size)) in *.
  set (q := Double.wave_after size k) in *.
  destruct (Double_drawing_depends_on p q Hl Hm Hs) as (Hr & Ha & Hb).
  destruct (Double_ageParticle_fields p) as (Hlp & Hmp & Hsp).
  destruct (Double_ageParticle_fields q) as (Hlq & Hmq & Hsq).
  destruct (Double_drawing_depends_on
              (Double.ageParticle p) (Double.ageParticle q))
    as (Hr' & Ha' & _);
    [now rewrite Hlp, Hlq, Hl | now rewrite Hmp, Hmq | now rewrite Hsp, Hsq|].
  rewrite Hr, Ha, Hr', Ha', Hb.
  unfold Double.wave_drawn_well in Hall. fold q in Hall. cbn zeta in Hall.
  apply andb_true_iff in Hall as [Hall H7].
  apply andb_true_iff in Hall as [Hall H6].
  apply andb_true_iff in Hall as [Hall H5].
  apply andb_true_iff in Hall as [Hall H4].
  apply andb_true_iff in Hall as [Hall H3].
  apply andb_true_iff in Hall as [H1 H2].
  repeat split; try assumption.
  destruct (Double.stopAlpha 255 q) as [b|]; [|discriminate H5].
  exists b. split; [reflexivity|].
  apply andb_true_iff in H5 as [Hb0 Hb1].
  apply Z.leb_le in Hb0. apply Z.leb_le in Hb1. lia.
Qed.

Lemma wave_expands_and_fades_witness :
  (80 <=? Double.waveRadius
            (Nat.iter 20 Double.ageParticle
               (Double.wave "wave-1" 100 100 "#E6B3FF" 80)))%float
  = true /\
  (Double.waveRadius
     (Nat.iter 20 Double.ageParticle
        (Double.wave "wave-1" 100 100 "#E6B3FF" 80)) <? 80 + 150)%float
  = true /\
  (0 <? Double.waveAlpha
          (Nat.iter 20 Double.ageParticle
             (Double.wave "wave-1" 100 100 "#E6B3FF" 80)))%float
  = true /\
  (Double.waveAlpha
     (Nat.iter 20 Double.ageParticle
        (Double.wave "wave-1" 100 100 "#E6B3FF" 80)) <=? 0.6)%float
  = true /\
  (exists b,
      Double.stopAlpha 255
        (Nat.iter 20 Double.ageParticle
           (Double.wave "wave-1" 100 100 "#E6B3FF" 80))
      = Some b /\ (0 <= b <= 153)%Z) /\
  (Double.waveRadius
     (Nat.iter 20 Double.ageParticle
        (Double.wave "wave-1" 100 100 "#E6B3FF" 80))
   <? Double.waveRadius
        (Double.ageParticle
           (Nat.iter 20 Double.ageParticle
              (Double.wave "wave-1" 100 100 "#E6B3FF" 80))))%float
  = true /\
  (Double.waveAlpha
     (Double.ageParticle
        (Nat.iter 20 Double.ageParticle
           (Double.wave "wave-1" 100 100 "#E6B3FF" 80)))
   <? Double.waveAlpha
        (Nat.iter 20 Double.ageParticle
           (Double.wave "wave-1" 100 100 "#E6B3FF" 80)))%float
  = true.
Proof.
  apply (wave_expands_and_fades "wave-1" 100 100 "#E6B3FF" 80 20).
  - vm_compute. tauto.
  - lia.
Defined.

End DoublePrecision.
